(** * httpUi: a shallow embedding of the request life cycle

    The development follows the documented build of the library: class
    [queryUi] (the descriptor), class [ui] (the notifier) and class
    [HttpUi] (the orchestrator with its two transport adapters).

    How the program is read:
    - JavaScript strings are [string]; [escapeHtml], [indexOf],
      [endsWith] and [slice] work on them character by character.
    - Payloads and parsed bodies are [value]s: [undefined], [null],
      booleans, integers, strings, arrays, plain objects (association
      lists in property order) and FormData.  Property reads look at own
      properties only.
    - The header object is a finite map from names to values.
    - The descriptor and the notifier are records; a property a caller
      may leave out is an [option].
    - Every DOM side effect, every callback and every call to [resolve]
      or [reject] is an [event]; a computation is the list of events it
      caused together with its result or the [TypeError] that cut it
      short (monad [M]).  Caller callbacks are taken to return normally.
    - The page, the clock and the random source are an [env]; what the
      network answers is a [net].  [JSON.stringify] and [JSON.parse] are
      parameters of the orchestrator; [Json.stringify] is a reference
      implementation on the modelled values. *)

From Stdlib Require Import ZArith Ascii String List Bool Lia.
From Stdlib Require Import DecimalString DecimalNat DecimalPos DecimalZ.
From Stdlib Require Import HexadecimalString.
From stdpp Require Import base option gmap strings.

Import ListNotations.
Set Warnings "-register-all".
Local Open Scope string_scope.
Local Open Scope list_scope.
Local Open Scope Z_scope.

(** ** Strings *)

Module Str.

(** The double quote, written by code so that no literal has to escape it. *)
Definition dquote : ascii := ascii_of_nat 34.
Definition squote : ascii := ascii_of_nat 39.
Definition amp : ascii := ascii_of_nat 38.
Definition lt : ascii := ascii_of_nat 60.
Definition gt : ascii := ascii_of_nat 62.

(** [s.replace(/c/g, r)] for a one-character pattern and a replacement
    without [$] patterns. *)
Fixpoint replace_all (c : ascii) (r : string) (s : string) : string :=
  match s with
  | EmptyString => EmptyString
  | String a s' =>
      if Ascii.eqb a c then r +:+ replace_all c r s'
      else String a (replace_all c r s')
  end.

Definition chars (s : string) : list ascii := list_ascii_of_string s.

(** [hay.indexOf(needle)]: the first position, or [-1]. *)
Definition indexOf (needle hay : string) : Z :=
  match String.index 0 needle hay with
  | Some i => Z.of_nat i
  | None => -1
  end.

(** [needle] occurs somewhere in [hay]. *)
Definition contains (needle hay : string) : Prop :=
  exists pre post, hay = pre +:+ needle +:+ post.

(** [s.endsWith(suffix)] *)
Definition endsWith (suffix s : string) : bool :=
  let n := String.length s in
  let k := String.length suffix in
  (k <=? n)%nat && String.eqb (String.substring (n - k) k s) suffix.

(** [s.slice(0, -k)] *)
Definition dropEnd (k : nat) (s : string) : string :=
  String.substring 0 (String.length s - k) s.

(** Decimal rendering of a non-negative index or of an integer. *)
Definition of_nat (n : nat) : string :=
  DecimalString.NilEmpty.string_of_uint (Nat.to_uint n).
Definition of_Z (z : Z) : string :=
  DecimalString.NilZero.string_of_int (Z.to_int z).
(** [n.toString(16)] for a non-negative integer. *)
Definition hex_of_N (n : N) : string :=
  HexadecimalString.NilZero.string_of_uint (N.to_hex_uint n).

Definition join (sep : string) (l : list string) : string :=
  match l with
  | [] => EmptyString
  | x :: r => fold_left (fun acc y => acc +:+ sep +:+ y) r x
  end.

End Str.

(** ** The notifier's HTML escaping *)

(** [escapeHtml]: five global replacements, the ampersand first. *)
Definition escapeHtml (unsafe : string) : string :=
  Str.replace_all Str.squote "&#039;"
    (Str.replace_all Str.dquote "&quot;"
      (Str.replace_all Str.gt "&gt;"
        (Str.replace_all Str.lt "&lt;"
          (Str.replace_all Str.amp "&amp;" unsafe)))).

(** The entity table the five replacements amount to, one character at a
    time. *)
Definition entity (c : ascii) : string :=
  if Ascii.eqb c Str.amp then "&amp;"
  else if Ascii.eqb c Str.lt then "&lt;"
  else if Ascii.eqb c Str.gt then "&gt;"
  else if Ascii.eqb c Str.dquote then "&quot;"
  else if Ascii.eqb c Str.squote then "&#039;"
  else String c EmptyString.

Fixpoint escape_by_table (s : string) : string :=
  match s with
  | EmptyString => EmptyString
  | String c s' => entity c +:+ escape_by_table s'
  end.

Definition raw_markup (c : ascii) : bool :=
  Ascii.eqb c Str.lt || Ascii.eqb c Str.gt
  || Ascii.eqb c Str.dquote || Ascii.eqb c Str.squote.


(** ** The page: nodes and form controls *)

(** A form control as [serializeForm] reads it.  [in_selected] lists the
    values of the control's [option:checked] descendants in document
    order (empty for anything but a select). *)
Record input := {
  in_tagName : string;
  in_type : string;
  in_name : string;
  in_value : string;
  in_checked : bool;
  in_multiple : bool;
  in_selected : list string
}.

(** A node that can serve as a context.  [controls] is the result of
    [querySelectorAll('input, select, textarea')] on it; [isHTMLElement]
    is [node instanceof HTMLElement] (false for the document itself). *)
Record node := {
  node_key : nat;
  nodeName : string;
  isHTMLElement : bool;
  controls : list input
}.

(** ** JavaScript values carried as payloads and parsed bodies

    Numbers are integers.  The properties of a [VObj] are listed in the
    engine's enumeration order. *)
Inductive value :=
| VUndef
| VNull
| VBool (b : bool)
| VNum (z : Z)
| VStr (s : string)
| VArr (items : list value)
| VObj (props : list (string * value))
| VFormData (form : node).

Definition obj := list (string * value).

Definition is_object (v : value) : bool :=
  match v with
  | VNull | VArr _ | VObj _ | VFormData _ => true
  | _ => false
  end.

(** [typeof v] *)
Definition typeof (v : value) : string :=
  match v with
  | VUndef => "undefined"
  | VBool _ => "boolean"
  | VNum _ => "number"
  | VStr _ => "string"
  | VNull | VArr _ | VObj _ | VFormData _ => "object"
  end.

(** ToBoolean *)
Definition truthy (v : value) : bool :=
  match v with
  | VUndef | VNull => false
  | VBool b => b
  | VNum z => negb (z =? 0)
  | VStr s => negb (String.eqb s "")
  | VArr _ | VObj _ | VFormData _ => true
  end.

Definition instanceof_FormData (v : value) : bool :=
  match v with VFormData _ => true | _ => false end.

(** [o[k]] on an object's own properties. *)
Fixpoint obj_get (k : string) (o : obj) : value :=
  match o with
  | [] => VUndef
  | (k', v) :: r => if String.eqb k' k then v else obj_get k r
  end.

(** [o[k] = v]: an existing property keeps its place, a new one goes
    last. *)
Fixpoint obj_set (k : string) (v : value) (o : obj) : obj :=
  match o with
  | [] => [(k, v)]
  | (k', v') :: r =>
      if String.eqb k' k then (k', v) :: r else (k', v') :: obj_set k v r
  end.

(** [v?.k]: a property read that yields [undefined] on anything but a
    plain object (an array, a string or a FormData has no [message] or
    [errors] of its own). *)
Definition prop (k : string) (v : value) : value :=
  match v with
  | VObj o => obj_get k o
  | _ => VUndef
  end.

(** ToString, as string concatenation and [join] apply it.  Inside an
    array [null] and [undefined] render as the empty string. *)
Fixpoint toStr (v : value) : string :=
  match v with
  | VUndef => "undefined"
  | VNull => "null"
  | VBool true => "true"
  | VBool false => "false"
  | VNum z => Str.of_Z z
  | VStr s => s
  | VArr items =>
      Str.join ","
        ((fix each (l : list value) : list string :=
            match l with
            | [] => []
            | VUndef :: r => "" :: each r
            | VNull :: r => "" :: each r
            | x :: r => toStr x :: each r
            end) items)
  | VObj _ => "[object Object]"
  | VFormData _ => "[object FormData]"
  end.

(** The element strings of [Array.prototype.join]. *)
Definition join_item (v : value) : string :=
  match v with
  | VUndef | VNull => ""
  | _ => toStr v
  end.

(** [Object.keys(v).length] for a value that is neither [null] nor
    [undefined]. *)
Definition key_count (v : value) : nat :=
  match v with
  | VObj o => List.length o
  | VArr l => List.length l
  | VStr s => String.length s
  | _ => 0%nat
  end.

(** The recursive walk of [flatDeep]: [Object.entries] of the argument,
    descending into every entry whose [typeof] is ['object'].  [None] is
    the [TypeError] of [Object.entries(null)]. *)
Fixpoint flat (v : value) : option (list value) :=
  match v with
  | VUndef | VNull => None
  | VBool _ | VNum _ | VFormData _ => Some []
  | VStr s => Some (map (fun c => VStr (String c "")) (Str.chars s))
  | VArr items =>
      (fix each (l : list value) : option (list value) :=
         match l with
         | [] => Some []
         | x :: r =>
             match (if is_object x then flat x else Some [x]) with
             | None => None
             | Some a => match each r with None => None | Some b => Some (a ++ b) end
             end
         end) items
  | VObj o =>
      (fix each (l : list (string * value)) : option (list value) :=
         match l with
         | [] => Some []
         | (_, x) :: r =>
             match (if is_object x then flat x else Some [x]) with
             | None => None
             | Some a => match each r with None => None | Some b => Some (a ++ b) end
             end
         end) o
  end.

Definition flatDeep (array : value) : option (list value) := flat array.

(** [errorsToUlTree] *)
Definition errorsToUlTree (errors : value) : option string :=
  if (key_count errors =? 0)%nat then Some ""
  else match flatDeep errors with
       | None => None
       | Some l =>
           Some ("<ul><li>" +:+ Str.join "</li><li>" (map join_item l) +:+ "</li></ul>")
       end.

(** ** A reference [JSON.stringify] on the modelled values *)

Module Json.

Definition hex_digit (n : nat) : ascii :=
  ascii_of_nat (if (n <? 10)%nat then 48 + n else 87 + n).

(** QuoteJSONString, one character at a time. *)
Definition quote_char (c : ascii) : string :=
  let n := nat_of_ascii c in
  if (n =? 34)%nat then String (ascii_of_nat 92) (String Str.dquote "")
  else if (n =? 92)%nat then String (ascii_of_nat 92) (String (ascii_of_nat 92) "")
  else if (n =? 8)%nat then String (ascii_of_nat 92) "b"
  else if (n =? 9)%nat then String (ascii_of_nat 92) "t"
  else if (n =? 10)%nat then String (ascii_of_nat 92) "n"
  else if (n =? 12)%nat then String (ascii_of_nat 92) "f"
  else if (n =? 13)%nat then String (ascii_of_nat 92) "r"
  else if (n <? 32)%nat then
    String (ascii_of_nat 92)
      ("u00" +:+ String (hex_digit (n / 16)) (String (hex_digit (n mod 16)) ""))
  else String c "".

Fixpoint quote_body (s : string) : string :=
  match s with
  | EmptyString => EmptyString
  | String c s' => quote_char c +:+ quote_body s'
  end.

Definition quote (s : string) : string :=
  String Str.dquote (quote_body s +:+ String Str.dquote "").

(** [None] is the [undefined] that [JSON.stringify(undefined)] returns. *)
Fixpoint text (v : value) : option string :=
  match v with
  | VUndef => None
  | VNull => Some "null"
  | VBool true => Some "true"
  | VBool false => Some "false"
  | VNum z => Some (Str.of_Z z)
  | VStr s => Some (quote s)
  | VArr items =>
      Some ("[" +:+ Str.join ","
              ((fix each (l : list value) : list string :=
                  match l with
                  | [] => []
                  | x :: r =>
                      match text x with
                      | Some t => t :: each r
                      | None => "null" :: each r
                      end
                  end) items) +:+ "]")
  | VObj o =>
      Some ("{" +:+ Str.join ","
              ((fix each (l : list (string * value)) : list string :=
                  match l with
                  | [] => []
                  | (k, x) :: r =>
                      match text x with
                      | Some t => (quote k +:+ ":" +:+ t) :: each r
                      | None => each r
                      end
                  end) o) +:+ "}")
  | VFormData _ => Some "{}"
  end.

Definition stringify (v : value) : string :=
  match text v with Some t => t | None => "undefined" end.

End Json.

(** ** Descriptors, notifier, transport results *)

(** A context reference as a caller can pass it. *)
Inductive ref :=
| RUndef
| RNull
| RNode (n : node).

Definition ref_truthy (r : ref) : bool :=
  match r with RNode _ => true | _ => false end.

(** [r instanceof HTMLElement] *)
Definition instanceof_HTMLElement (r : ref) : bool :=
  match r with RNode n => isHTMLElement n | _ => false end.

Inductive callback := Callback (key : nat).

(** The parameter object of [request].  [None] is a property the caller
    left out. *)
Record params := {
  p_id : option string;
  p_url : option string;
  p_method : option string;
  p_headers : option (gmap string value);
  p_data : option value;
  p_onSuccess : option callback;
  p_onError : option callback;
  p_context : option ref;
  p_contextLock : option ref;
  p_contextStatus : option ref
}.

Definition no_params : params :=
  {| p_id := None; p_url := None; p_method := None; p_headers := None;
     p_data := None; p_onSuccess := None; p_onError := None;
     p_context := None; p_contextLock := None; p_contextStatus := None |}.

(** What [request] and the [queryUi] constructor accept: a URL string, a
    parameter object, or nothing. *)
Inductive arg :=
| ArgString (s : string)
| ArgObject (p : params)
| ArgNone.

(** The raw transport result, or the failure object: a jqXHR, a fetch
    [Response], the object [{data, status, statusText}] the fetch adapter
    throws, or an [Error].  A field the object does not have is [None]. *)
Record response := {
  r_data : value;
  r_status : option Z;
  r_statusText : option string;
  r_responseText : option string
}.

(** An [Error] (the [TypeError] of a failed fetch, the [SyntaxError] of
    [response.json()]): none of the fields. *)
Definition error_object : response :=
  {| r_data := VUndef; r_status := None; r_statusText := None;
     r_responseText := None |}.

(** class [ui] *)
Record ui := {
  ui_id : string;
  ui_context : node;
  ui_contextLock : node;
  ui_contextStatus : node
}.

(** class [queryUi] *)
Record queryUi := {
  q_id : option string;
  q_url : option string;
  q_method : string;
  q_headers : gmap string value;
  q_data : value;
  q_onSuccess : option callback;
  q_onError : option callback;
  q_context : ref;
  q_contextLock : ref;
  q_contextStatus : ref;
  q_ui : option ui;
  q_response : option response;
  q_requestData : option value
}.

(** What the page and the clock contribute to one call. *)
Record env := {
  document_body : node;
  csrf_meta : option string;   (* content of meta[name=csrf-token] *)
  clock : Z;                   (* new Date().getTime() *)
  dice : N;                    (* Math.floor(Math.random() * 0x75bcd15) *)
  ui_stamp : string;           (* the fallback id of the ui constructor *)
  has_jQuery : bool            (* window.jQuery *)
}.

Inductive transport := JQueryAjax | NativeFetch.

(** What the network answers.  [FetchResponse ok status statusText body]:
    [body] is the outcome of [response.json()], [None] when it rejects. *)
Inductive jq_reply :=
| JqDone (d : value) (jqXHR : response)
| JqFail (jqXHR : response).

Inductive fetch_reply :=
| FetchError
| FetchResponse (ok : bool) (status : Z) (statusText : string) (body : option value).

Record net := { net_jq : jq_reply; net_fetch : fetch_reply }.

(** ** Effects *)

Inductive alert_body :=
| Markup (html : string)
| UnexpectedBanner (sign errorText : string).

Inductive event :=
| EvRemAlerts (ctx : node)
| EvDisplayLoader (ctx : node) (id : string)
| EvHideLoader (id : string)
| EvShowAlert (ctx : node) (id : string) (body : alert_body) (type : string)
| EvAppendReport (id : string) (status statusText responseText : string)
| EvSend (via : transport) (url : option string) (method : string)
         (headers : gmap string value) (payload : value)
| EvOnSuccess (cb : callback) (this : ref) (d : value) (q : queryUi)
| EvOnError (cb : callback) (this : ref) (err : response) (q : queryUi)
| EvResolve (q : queryUi)
| EvReject (q : queryUi).

Inductive outcome (A : Type) :=
| Ret (a : A)
| Throw (err : string).
Arguments Ret {A} a.
Arguments Throw {A} err.

(** A computation: the events it caused, then its result or the
    exception that cut it short. *)
Definition M (A : Type) : Type := (list event * outcome A)%type.

#[export] Instance M_ret : MRet M := fun A a => ([], Ret a).
#[export] Instance M_bind : MBind M := fun A B f m =>
  match m with
  | (tr, Ret a) => let '(tr', r) := f a in (tr ++ tr', r)
  | (tr, Throw err) => (tr, Throw err)
  end.
#[export] Instance M_throw : MThrow string M := fun A err => ([], Throw err).

Definition emit (ev : event) : M unit := ([ev], Ret tt).

Definition trace {A} (m : M A) : list event := m.1.
Definition result {A} (m : M A) : outcome A := m.2.

Definition TypeError : string := "TypeError".

(** The state of the promise [request] returned, read off the calls to
    its [resolve] and [reject]. *)
Inductive promise :=
| Pending
| Fulfilled (q : queryUi)
| Rejected (q : queryUi).

Fixpoint settled (tr : list event) : promise :=
  match tr with
  | [] => Pending
  | EvResolve q :: _ => Fulfilled q
  | EvReject q :: _ => Rejected q
  | _ :: r => settled r
  end.


Definition is_send (ev : event) : bool :=
  match ev with EvSend _ _ _ _ _ => true | _ => false end.

(** ** class [queryUi] *)

Definition default_headers (e : env) : gmap string value :=
  <["Accept" := VStr "application/json, text/javascript"]>
    (<["X-Requested-With" := VStr "XMLHttpRequest"]>
      (<["X-CSRF-TOKEN" := match csrf_meta e with
                            | Some c => VStr c
                            | None => VUndef
                            end]> ∅)).

Definition params_of (a : arg) : params :=
  match a with
  | ArgString s =>
      {| p_id := None; p_url := Some s; p_method := None; p_headers := None;
         p_data := None; p_onSuccess := None; p_onError := None;
         p_context := None; p_contextLock := None; p_contextStatus := None |}
  | ArgObject p => p
  | ArgNone => no_params
  end.

(** The constructor: the defaults, then [...params] over them. *)
Definition new_queryUi (e : env) (a : arg) : queryUi :=
  let p := params_of a in
  {| q_id := p_id p;
     q_url := p_url p;
     q_method := default "GET" (p_method p);
     q_headers := default (default_headers e) (p_headers p);
     q_data := default VUndef (p_data p);
     q_onSuccess := p_onSuccess p;
     q_onError := p_onError p;
     q_context := default (RNode (document_body e)) (p_context p);
     q_contextLock := default RUndef (p_contextLock p);
     q_contextStatus := default RUndef (p_contextStatus p);
     q_ui := None;
     q_response := None;
     q_requestData := None |}.

Definition addResponse (q : queryUi) (responseObject : response)
    (responseData : value) : queryUi :=
  {| q_id := q_id q;
     q_url := q_url q;
     q_method := q_method q;
     q_headers := q_headers q;
     q_data := responseData;
     q_onSuccess := q_onSuccess q;
     q_onError := q_onError q;
     q_context := q_context q;
     q_contextLock := q_contextLock q;
     q_contextStatus := q_contextStatus q;
     q_ui := q_ui q;
     q_response := Some responseObject;
     q_requestData := Some (q_data q) |}.

(** ** class [ui] *)

Definition new_ui (e : env) (q : queryUi) : ui :=
  let ctx := match q_context q with RNode n => n | _ => document_body e end in
  {| ui_id := default (ui_stamp e) (q_id q);
     ui_context := ctx;
     ui_contextLock := match q_contextLock q with RNode n => n | _ => ctx end;
     ui_contextStatus := match q_contextStatus q with RNode n => n | _ => ctx end |}.

Definition errorsMap : list (string * string) :=
  [ ("error", "&#9888; ");
    ("0", "An error occurred: Could not connect to the server, please check your internet connection.");
    ("400", "An error occurred: 400 - request failed");
    ("404", "An error occurred: 404 - page not found or address changed");
    ("500", "The server encountered a 500 - unknown error");
    ("parsererror", "An error occurred: parser - the server returned an invalid JSON request");
    ("timeout", "An error occurred: timeout - the request timed out too long");
    ("unknown", "An error occurred: ") ].

Fixpoint errorsMap_get (k : string) (m : list (string * string)) : option string :=
  match m with
  | [] => None
  | (k', v) :: r => if String.eqb k' k then Some v else errorsMap_get k r
  end.

Definition or_id (given : option string) (own : string) : string :=
  match given with
  | Some s => if String.eqb s "" then own else s
  | None => own
  end.

Definition displayLoader (u : ui) (context : option node) (ajaxId : option string)
    : M string :=
  let context := default (ui_contextLock u) context in
  let ajaxId := or_id ajaxId (ui_id u) in
  emit (EvDisplayLoader context ajaxId) ;; mret ajaxId.

Definition hideLoader (u : ui) (ajaxId : option string) : M unit :=
  emit (EvHideLoader (or_id ajaxId (ui_id u))).

Definition status_key (x : response) : string :=
  match r_status x with Some z => Str.of_Z z | None => "undefined" end.

Definition statusText_key (x : response) : string :=
  match r_statusText x with Some s => s | None => "undefined" end.

Definition getErrorText (x : response) : string :=
  match errorsMap_get (status_key x) errorsMap with
  | Some s => s
  | None =>
      match errorsMap_get (statusText_key x) errorsMap with
      | Some s => s
      | None => "An error occurred: " +:+ status_key x +:+ " " +:+ statusText_key x
      end
  end.

Definition showAlert (u : ui) (body : alert_body) (type : option string) : M unit :=
  emit (EvShowAlert (ui_contextStatus u) (ui_id u) body (default "info" type)).

Definition showSuccess (u : ui) (html : string) : M unit :=
  showAlert u (Markup html) (Some "success").

(** A member access on [undefined]. *)
Definition member {A} (o : option A) : M A :=
  match o with
  | Some a => mret a
  | None => mthrow TypeError
  end.

(** [null] or [undefined]. *)
Definition nullish (v : value) : bool :=
  match v with
  | VUndef | VNull => true
  | _ => false
  end.

(** [v.k]: the unguarded member access, which throws on [null] and
    [undefined] and reads the property on anything else. *)
Definition member_of (k : string) (v : value) : M value :=
  if nullish v then mthrow TypeError else mret (prop k v).

(** The message is read with [json?.message], the errors with the
    unguarded [json.errors]. *)
Definition showAlertExtended (u : ui) (json : value) : M unit :=
  errors ← member_of "errors" json ;
  list ← (if truthy errors
          then member (errorsToUlTree errors)
          else mret "") ;
  showAlert u
    (Markup ("<strong>" +:+ toStr (prop "message" json) +:+ "</strong>" +:+ list))
    (Some "danger").

Definition showAlertPageExpired (u : ui) : M unit :=
  showAlertExtended u
    (VObj [ ("message", VStr "Page Expired");
            ("errors", VArr [VStr "Please reload the page."]) ]).

Definition showAlertUnexpected (u : ui) (jqXHR : response) : M unit :=
  let errorText := getErrorText jqXHR in
  showAlert u (UnexpectedBanner "&#9888; " (escapeHtml errorText)) (Some "danger") ;;
  status ← member (r_status jqXHR) ;
  statusText ← member (r_statusText jqXHR) ;
  responseText ← member (r_responseText jqXHR) ;
  emit (EvAppendReport (ui_id u)
          (escapeHtml (Str.of_Z status)) (escapeHtml statusText)
          (escapeHtml responseText)).

Definition remAlerts (u : ui) : M unit :=
  emit (EvRemAlerts (ui_contextStatus u)).

(** ** class [HttpUi] *)

Definition is_multi_list (input : input) : bool :=
  String.eqb (in_tagName input) "SELECT" && in_multiple input
  && Str.endsWith "[]" (in_name input).

Definition indexed_key (sname : string) (j : nat) : string :=
  sname +:+ "[" +:+ Str.of_nat j +:+ "]".

(** [options.forEach((option, j) => data[`${sname}[${j}]`] = option.value)],
    counting from [j]. *)
Fixpoint set_indexed (sname : string) (j : nat) (options : list string)
    (data : obj) : obj :=
  match options with
  | [] => data
  | v :: r => set_indexed sname (S j) r (obj_set (indexed_key sname j) (VStr v) data)
  end.

(** The body of the [inputs.forEach] callback of [serializeForm]. *)
Definition serialize_input (data : obj) (input : input) : obj :=
  if String.eqb (in_type input) "checkbox" then
    obj_set (in_name input)
      (VStr (if in_checked input then in_value input else "")) data
  else if String.eqb (in_type input) "radio" then
    let data :=
      if truthy (obj_get (in_name input) data) then data
      else obj_set (in_name input) (VStr "") data in
    if in_checked input then obj_set (in_name input) (VStr (in_value input)) data
    else data
  else if is_multi_list input then
    set_indexed (Str.dropEnd 2 (in_name input)) 0 (in_selected input) data
  else
    obj_set (in_name input) (VStr (in_value input)) data.

Definition serialize_controls (inputs : list input) : obj :=
  fold_left serialize_input inputs [].

Definition serializeForm (form : node) : value :=
  if String.eqb (nodeName form) "FORM" then VFormData form
  else VObj (serialize_controls (controls form)).

Definition get_ui (q : queryUi) : M ui := member (q_ui q).

(** The first test of [displayAlert]; the [indexOf] is only reached when
    the two tests before it hold. *)
Definition page_expired_test (jqXHR : response) : M bool :=
  if negb (is_object (r_data jqXHR)) then
    match r_status jqXHR with
    | Some 419 =>
        text ← member (r_responseText jqXHR) ;
        mret (0 <? Str.indexOf "Page Expired" text)
    | _ => mret false
    end
  else mret false.

Definition displayAlert (query : queryUi) : M unit :=
  jqXHR ← member (q_response query) ;
  expired ← page_expired_test jqXHR ;
  if (expired : bool) then
    u ← get_ui query ; showAlertPageExpired u
  else if is_object (r_data jqXHR) && truthy (prop "message" (r_data jqXHR)) then
    u ← get_ui query ; showAlertExtended u (r_data jqXHR)
  else
    u ← get_ui query ; showAlertUnexpected u jqXHR.

Definition set_data (q : queryUi) (d : value) : queryUi :=
  {| q_id := q_id q; q_url := q_url q; q_method := q_method q;
     q_headers := q_headers q; q_data := d;
     q_onSuccess := q_onSuccess q; q_onError := q_onError q;
     q_context := q_context q; q_contextLock := q_contextLock q;
     q_contextStatus := q_contextStatus q; q_ui := q_ui q;
     q_response := q_response q; q_requestData := q_requestData q |}.

Definition set_header (q : queryUi) (k : string) (v : value) : queryUi :=
  {| q_id := q_id q; q_url := q_url q; q_method := q_method q;
     q_headers := <[k := v]> (q_headers q); q_data := q_data q;
     q_onSuccess := q_onSuccess q; q_onError := q_onError q;
     q_context := q_context q; q_contextLock := q_contextLock q;
     q_contextStatus := q_contextStatus q; q_ui := q_ui q;
     q_response := q_response q; q_requestData := q_requestData q |}.

Definition set_contextLock (q : queryUi) (r : ref) : queryUi :=
  {| q_id := q_id q; q_url := q_url q; q_method := q_method q;
     q_headers := q_headers q; q_data := q_data q;
     q_onSuccess := q_onSuccess q; q_onError := q_onError q;
     q_context := q_context q; q_contextLock := r;
     q_contextStatus := q_contextStatus q; q_ui := q_ui q;
     q_response := q_response q; q_requestData := q_requestData q |}.

Definition set_contextStatus (q : queryUi) (r : ref) : queryUi :=
  {| q_id := q_id q; q_url := q_url q; q_method := q_method q;
     q_headers := q_headers q; q_data := q_data q;
     q_onSuccess := q_onSuccess q; q_onError := q_onError q;
     q_context := q_context q; q_contextLock := q_contextLock q;
     q_contextStatus := r; q_ui := q_ui q;
     q_response := q_response q; q_requestData := q_requestData q |}.

Definition set_id_ui (q : queryUi) (i : string) (u : option ui) : queryUi :=
  {| q_id := Some i; q_url := q_url q; q_method := q_method q;
     q_headers := q_headers q; q_data := q_data q;
     q_onSuccess := q_onSuccess q; q_onError := q_onError q;
     q_context := q_context q; q_contextLock := q_contextLock q;
     q_contextStatus := q_contextStatus q; q_ui := u;
     q_response := q_response q; q_requestData := q_requestData q |}.

Definition set_response_data (jqXHR : response) (d : value) : response :=
  {| r_data := d; r_status := r_status jqXHR;
     r_statusText := r_statusText jqXHR;
     r_responseText := r_responseText jqXHR |}.

Section Host.

(** The host's [JSON.stringify] on an object payload and [JSON.parse]
    ([None] when it throws). *)
Variable JSON_stringify : value -> string.
Variable JSON_parse : string -> option value.

(** The two payload steps of [#prepareQuery]. *)
Definition derive_payload (query : queryUi) : queryUi :=
  if (typeof (q_data query) =? "undefined")%string
     && negb (q_method query =? "GET")%string
     && instanceof_HTMLElement (q_context query)
  then match q_context query with
       | RNode form => set_data query (serializeForm form)
       | _ => query
       end
  else query.

Definition encode_payload (query : queryUi) : queryUi :=
  if truthy (q_data query) && (typeof (q_data query) =? "object")%string
     && negb (instanceof_FormData (q_data query))
  then set_header (set_data query (VStr (JSON_stringify (q_data query))))
         "Content-Type" (VStr "application/json")
  else query.

Definition resolve_contexts (query : queryUi) : queryUi :=
  let query :=
    if negb (ref_truthy (q_contextLock query))
    then set_contextLock query (q_context query) else query in
  if negb (ref_truthy (q_contextStatus query))
  then set_contextStatus query (q_context query) else query.

Definition prepareQuery (e : env) (a : arg) : queryUi :=
  resolve_contexts (encode_payload (derive_payload (new_queryUi e a))).

(** [try { jqXHR.data = JSON.parse(jqXHR.responseText) } catch (e) {}]:
    [JSON.parse(undefined)] always throws, and a throw leaves [data] as it
    was. *)
Definition attach_body (jqXHR : response) : response :=
  match r_responseText jqXHR with
  | Some text =>
      match JSON_parse text with
      | Some d => set_response_data jqXHR d
      | None => jqXHR
      end
  | None => jqXHR
  end.

(** [#requestFail] *)
Definition requestFail (jqXHR : response) (query : queryUi) : M unit :=
  u ← get_ui query ;
  hideLoader u None ;;
  let jqXHR := attach_body jqXHR in
  let query := addResponse query jqXHR (r_data jqXHR) in
  match q_onError query with
  | Some cb => emit (EvOnError cb (q_context query) jqXHR query)
  | None => displayAlert query
  end ;;
  emit (EvReject query).

(** The success continuation shared by both adapters. *)
Definition succeed (query : queryUi) (raw : response) (d : value) : M unit :=
  let query := addResponse query raw d in
  match q_onSuccess query return M unit with
  | Some cb => emit (EvOnSuccess cb (q_context query) d query)
  | None => mret tt
  end ;;
  emit (EvResolve query).

(** The [.then] and [.fail] handlers of [#sendRequestJQuery]. *)
Definition on_jq_reply (query : queryUi) (reply : jq_reply) : M unit :=
  match reply with
  | JqDone d jqXHR =>
      u ← get_ui query ;
      hideLoader u None ;;
      succeed query jqXHR d
  | JqFail jqXHR => requestFail jqXHR query
  end.

(** [#sendRequestJQuery], with the reply the network gives. *)
Definition sendRequestJQuery (query : queryUi) (reply : jq_reply) : M unit :=
  u ← get_ui query ;
  remAlerts u ;;
  displayLoader u None None ;;
  emit (EvSend JQueryAjax (q_url query) (q_method query) (q_headers query)
          (q_data query)) ;;
  on_jq_reply query reply.

(** The [.then] and [.catch] handlers of [#sendRequestFetch]: a rejected
    fetch or [response.json()] hands an [Error] to the failure handler, a
    response that is not [ok] the thrown [{data, status, statusText}]. *)
Definition on_fetch_reply (query : queryUi) (reply : fetch_reply) : M unit :=
  match reply with
  | FetchError => requestFail error_object query
  | FetchResponse ok status statusText body =>
      u ← get_ui query ;
      hideLoader u None ;;
      match body with
      | None => requestFail error_object query
      | Some d =>
          if ok then
            succeed query
              {| r_data := VUndef; r_status := Some status;
                 r_statusText := Some statusText; r_responseText := None |} d
          else
            requestFail
              {| r_data := d; r_status := Some status;
                 r_statusText := Some statusText; r_responseText := None |}
              query
      end
  end.

(** [#sendRequestFetch], with the reply the network gives. *)
Definition sendRequestFetch (query : queryUi) (reply : fetch_reply) : M unit :=
  u ← get_ui query ;
  remAlerts u ;;
  displayLoader u None None ;;
  emit (EvSend NativeFetch (q_url query) (q_method query) (q_headers query)
          (q_data query)) ;;
  on_fetch_reply query reply.

Definition fresh_id (e : env) : string :=
  Str.of_Z (clock e) +:+ "-" +:+ Str.hex_of_N (dice e).

(** The descriptor [request] hands to the transport: [#prepareQuery],
    then the id, the correlation header and the notifier. *)
Definition descriptor (e : env) (p : arg) : queryUi :=
  let ajaxId := or_id (p_id (params_of p)) (fresh_id e) in
  let query := prepareQuery e p in
  let query := set_id_ui query ajaxId (q_ui query) in
  let query := set_header query "X-Requested-Id" (VStr ajaxId) in
  set_id_ui query ajaxId (Some (new_ui e query)).

(** [params.id] on [undefined] throws before anything else happens. *)
Definition request_query (e : env) (p : arg) : M queryUi :=
  match p with
  | ArgNone => mthrow TypeError
  | _ => mret (descriptor e p)
  end.

Definition request (e : env) (p : arg) (w : net) : M unit :=
  query ← request_query e p ;
  if has_jQuery e then sendRequestJQuery query (net_jq w)
  else sendRequestFetch query (net_fetch w).

(** [{method: m, url: url, ...params}] *)
Definition with_method_url (m url : string) (ps : option params) : params :=
  match ps with
  | None =>
      {| p_id := None; p_url := Some url; p_method := Some m; p_headers := None;
         p_data := None; p_onSuccess := None; p_onError := None;
         p_context := None; p_contextLock := None; p_contextStatus := None |}
  | Some o =>
      {| p_id := p_id o;
         p_url := Some (default url (p_url o));
         p_method := Some (default m (p_method o));
         p_headers := p_headers o; p_data := p_data o;
         p_onSuccess := p_onSuccess o; p_onError := p_onError o;
         p_context := p_context o; p_contextLock := p_contextLock o;
         p_contextStatus := p_contextStatus o |}
  end.

Definition get (e : env) (url : string) (ps : option params) (w : net) : M unit :=
  request e (ArgObject (with_method_url "GET" url ps)) w.
Definition head (e : env) (url : string) (ps : option params) (w : net) : M unit :=
  request e (ArgObject (with_method_url "HEAD" url ps)) w.
Definition options (e : env) (url : string) (ps : option params) (w : net) : M unit :=
  request e (ArgObject (with_method_url "OPTIONS" url ps)) w.
Definition post (e : env) (url : string) (data : value) (ps : option params)
    (w : net) : M unit :=
  request e (ArgObject (with_method_url "POST" url ps)) w.

End Host.

(** ** The build under [src/src/httpUi.js]

    It differs from the documented build in how a result is attached:
    there is no [addResponse].  The [then] handlers assign
    [query.data = data; query.response = jqXHR], [#requestFail] assigns
    [query.response = jqXHR] only, and nothing sets [requestData].  The
    string form of the argument is unwrapped in [#prepareQuery] instead of
    the constructor, which gives the same descriptor. *)
Module Inline.

(** [query.data = data; query.response = jqXHR] *)
Definition attach (q : queryUi) (raw : response) (d : value) : queryUi :=
  {| q_id := q_id q; q_url := q_url q; q_method := q_method q;
     q_headers := q_headers q; q_data := d;
     q_onSuccess := q_onSuccess q; q_onError := q_onError q;
     q_context := q_context q; q_contextLock := q_contextLock q;
     q_contextStatus := q_contextStatus q; q_ui := q_ui q;
     q_response := Some raw; q_requestData := q_requestData q |}.

(** [query.response = jqXHR] *)
Definition attach_failure (q : queryUi) (raw : response) : queryUi :=
  {| q_id := q_id q; q_url := q_url q; q_method := q_method q;
     q_headers := q_headers q; q_data := q_data q;
     q_onSuccess := q_onSuccess q; q_onError := q_onError q;
     q_context := q_context q; q_contextLock := q_contextLock q;
     q_contextStatus := q_contextStatus q; q_ui := q_ui q;
     q_response := Some raw; q_requestData := q_requestData q |}.

Section Host.

Variable JSON_stringify : value -> string.
Variable JSON_parse : string -> option value.

(** [#requestFail] *)
Definition requestFail (jqXHR : response) (query : queryUi) : M unit :=
  u ← get_ui query ;
  hideLoader u None ;;
  let jqXHR := attach_body JSON_parse jqXHR in
  let query := attach_failure query jqXHR in
  match q_onError query with
  | Some cb => emit (EvOnError cb (q_context query) jqXHR query)
  | None => displayAlert query
  end ;;
  emit (EvReject query).

Definition succeed (query : queryUi) (raw : response) (d : value) : M unit :=
  let query := attach query raw d in
  match q_onSuccess query return M unit with
  | Some cb => emit (EvOnSuccess cb (q_context query) d query)
  | None => mret tt
  end ;;
  emit (EvResolve query).

Definition on_jq_reply (query : queryUi) (reply : jq_reply) : M unit :=
  match reply with
  | JqDone d jqXHR =>
      u ← get_ui query ;
      hideLoader u None ;;
      succeed query jqXHR d
  | JqFail jqXHR => requestFail jqXHR query
  end.

Definition sendRequestJQuery (query : queryUi) (reply : jq_reply) : M unit :=
  u ← get_ui query ;
  remAlerts u ;;
  displayLoader u None None ;;
  emit (EvSend JQueryAjax (q_url query) (q_method query) (q_headers query)
          (q_data query)) ;;
  on_jq_reply query reply.

Definition on_fetch_reply (query : queryUi) (reply : fetch_reply) : M unit :=
  match reply with
  | FetchError => requestFail error_object query
  | FetchResponse ok status statusText body =>
      u ← get_ui query ;
      hideLoader u None ;;
      match body with
      | None => requestFail error_object query
      | Some d =>
          if ok then
            succeed query
              {| r_data := VUndef; r_status := Some status;
                 r_statusText := Some statusText; r_responseText := None |} d
          else
            requestFail
              {| r_data := d; r_status := Some status;
                 r_statusText := Some statusText; r_responseText := None |}
              query
      end
  end.

Definition sendRequestFetch (query : queryUi) (reply : fetch_reply) : M unit :=
  u ← get_ui query ;
  remAlerts u ;;
  displayLoader u None None ;;
  emit (EvSend NativeFetch (q_url query) (q_method query) (q_headers query)
          (q_data query)) ;;
  on_fetch_reply query reply.

Definition request (e : env) (p : arg) (w : net) : M unit :=
  query ← request_query JSON_stringify e p ;
  if has_jQuery e then sendRequestJQuery query (net_jq w)
  else sendRequestFetch query (net_fetch w).

End Host.

End Inline.

(** ** Vocabulary of the properties *)


(** A context option the caller left unspecified: the property is absent,
    [undefined] or [null]. *)
Definition unspecified (o : option ref) : bool :=
  match o with
  | None | Some RUndef | Some RNull => true
  | Some (RNode _) => false
  end.

(** A payload that is an object in its own right: a plain object or an
    array. *)
Definition plain_object (v : value) : bool :=
  match v with
  | VObj _ | VArr _ => true
  | _ => false
  end.

(** The transport [request] picks. *)
Definition transport_of (e : env) : transport :=
  if has_jQuery e then JQueryAjax else NativeFetch.

(** The events a default alert can cause. *)
Definition is_notice (ev : event) : bool :=
  match ev with
  | EvShowAlert _ _ _ _ | EvAppendReport _ _ _ _ => true
  | _ => false
  end.



(** The network call of a run, if it makes one. *)
Definition sent (tr : list event) : option event := List.find is_send tr.

(** The correlation id [request] settles on. *)
Definition ajaxId (e : env) (a : arg) : string :=
  or_id (p_id (params_of a)) (fresh_id e).

(** The test of the second step of [#prepareQuery]. *)
Definition encodes (q : queryUi) : bool :=
  truthy (q_data q) && (typeof (q_data q) =? "object")%string
  && negb (instanceof_FormData (q_data q)).


(** ** Completion *)

(** A [Response] as the fetch adapter hands it on. *)
Definition fetch_response (status : Z) (statusText : string) : response :=
  {| r_data := VUndef; r_status := Some status;
     r_statusText := Some statusText; r_responseText := None |}.

(** What a reply brings to the completion of a request: the raw result
    and the parsed body where the adapter takes the success path, the
    failure object where it takes the failure path. *)
Inductive completion :=
| Succeeded (raw : response) (parsed : value)
| Failed (failure : response).

Definition jq_completion (reply : jq_reply) : completion :=
  match reply with
  | JqDone d jqXHR => Succeeded jqXHR d
  | JqFail jqXHR => Failed jqXHR
  end.

Definition fetch_completion (reply : fetch_reply) : completion :=
  match reply with
  | FetchError => Failed error_object
  | FetchResponse _ _ _ None => Failed error_object
  | FetchResponse true status statusText (Some d) =>
      Succeeded (fetch_response status statusText) d
  | FetchResponse false status statusText (Some d) =>
      Failed {| r_data := d; r_status := Some status;
                r_statusText := Some statusText; r_responseText := None |}
  end.

Definition completion_of (e : env) (w : net) : completion :=
  if has_jQuery e then jq_completion (net_jq w) else fetch_completion (net_fetch w).


(** ** Property names on a plain object *)

(** The names every object inherits from [Object.prototype].  On a plain
    object a read of one of them finds the inherited member, and an
    assignment to [__proto__] makes no property, so the statements about
    the error table and about the serialized fields are made for the
    other names. *)
Definition inherited_key (k : string) : bool :=
  existsb (String.eqb k)
    [ "constructor"; "hasOwnProperty"; "isPrototypeOf"; "propertyIsEnumerable";
      "toLocaleString"; "toString"; "valueOf"; "__proto__";
      "__defineGetter__"; "__defineSetter__"; "__lookupGetter__";
      "__lookupSetter__" ].




(** ** The serialization rules, control by control *)

Inductive kind := Checkbox | Radio | ListSelect | Other.

(** Which rule a control falls under. *)
Definition kind_of (i : input) : kind :=
  if String.eqb (in_type i) "checkbox" then Checkbox
  else if String.eqb (in_type i) "radio" then Radio
  else if is_multi_list i then ListSelect
  else Other.

(** The keys a control writes. *)
Definition keys_of (i : input) : list string :=
  match kind_of i with
  | ListSelect =>
      map (indexed_key (Str.dropEnd 2 (in_name i)))
        (seq 0 (List.length (in_selected i)))
  | _ => [in_name i]
  end.





(** ** Concrete pages, requests and replies used below *)

Module Ex.

Definition body : node :=
  {| node_key := 0; nodeName := "BODY"; isHTMLElement := true; controls := [] |}.

(** A page without jQuery and without a CSRF meta tag. *)
Definition page_fetch : env :=
  {| document_body := body; csrf_meta := None; clock := 1700000000000;
     dice := 255%N; ui_stamp := "01700000000000123.4"; has_jQuery := false |}.

(** A page with jQuery and a CSRF meta tag. *)
Definition page_jquery : env :=
  {| document_body := body; csrf_meta := Some "s3cr3t"; clock := 1700000000000;
     dice := 255%N; ui_stamp := "01700000000000123.4"; has_jQuery := true |}.

(** [{url: '/x'}] *)
Definition just_url : params :=
  {| p_id := None; p_url := Some "/x"; p_method := None; p_headers := None;
     p_data := None; p_onSuccess := None; p_onError := None;
     p_context := None; p_contextLock := None; p_contextStatus := None |}.

(** The server answers 500 with the JSON body [{error: 'boom'}]. *)
Definition server_error : net :=
  {| net_jq :=
       JqFail {| r_data := VUndef; r_status := Some 500;
                 r_statusText := Some "Internal Server Error";
                 r_responseText :=
                   Some (Json.stringify (VObj [("error", VStr "boom")])) |};
     net_fetch :=
       FetchResponse false 500 "Internal Server Error"
         (Some (VObj [("error", VStr "boom")])) |}.

Definition notifier : ui :=
  {| ui_id := "r1"; ui_context := body; ui_contextLock := body;
     ui_contextStatus := body |}.

(** A descriptor that failed with the given failure object and has no
    [onError]. *)
Definition failed (x : response) : queryUi :=
  {| q_id := Some "r1"; q_url := Some "/x"; q_method := "POST";
     q_headers := ∅; q_data := r_data x;
     q_onSuccess := None; q_onError := None;
     q_context := RNode body; q_contextLock := RNode body;
     q_contextStatus := RNode body; q_ui := Some notifier;
     q_response := Some x; q_requestData := Some VUndef |}.

(** Status 419, no parsed data, the body text is the marker itself. *)
Definition expired_at_start : response :=
  {| r_data := VUndef; r_status := Some 419;
     r_statusText := Some "unknown status";
     r_responseText := Some "Page Expired" |}.

(** Status 419, no parsed data, the marker inside an HTML page. *)
Definition expired_page : response :=
  {| r_data := VUndef; r_status := Some 419;
     r_statusText := Some "unknown status";
     r_responseText := Some "<title>Page Expired</title>" |}.

(** [{url: '/x', headers: {'X-Foo': 'bar'}}] *)
Definition own_headers : params :=
  {| p_id := None; p_url := Some "/x"; p_method := None;
     p_headers := Some {[ "X-Foo" := VStr "bar" ]};
     p_data := None; p_onSuccess := None; p_onError := None;
     p_context := None; p_contextLock := None; p_contextStatus := None |}.

Definition text_input (name value : string) : input :=
  {| in_tagName := "INPUT"; in_type := "text"; in_name := name;
     in_value := value; in_checked := false; in_multiple := false;
     in_selected := [] |}.

Definition checkbox (name value : string) (checked : bool) : input :=
  {| in_tagName := "INPUT"; in_type := "checkbox"; in_name := name;
     in_value := value; in_checked := checked; in_multiple := false;
     in_selected := [] |}.

Definition radio (name value : string) (checked : bool) : input :=
  {| in_tagName := "INPUT"; in_type := "radio"; in_name := name;
     in_value := value; in_checked := checked; in_multiple := false;
     in_selected := [] |}.

Definition multi_select (name : string) (selected : list string) : input :=
  {| in_tagName := "SELECT"; in_type := "select-multiple"; in_name := name;
     in_value := List.hd "" selected; in_checked := false; in_multiple := true;
     in_selected := selected |}.

Definition some_controls : list input :=
  [ checkbox "agree" "yes" true;
    checkbox "news" "on" false;
    radio "size" "S" false;
    radio "size" "M" true;
    radio "size" "L" false;
    multi_select "tags[]" ["a"; "b"];
    text_input "city" "Oslo" ].

(** A [div] with form controls, and a [form] with the same controls. *)
Definition panel : node :=
  {| node_key := 1; nodeName := "DIV"; isHTMLElement := true;
     controls := some_controls |}.

Definition form : node :=
  {| node_key := 2; nodeName := "FORM"; isHTMLElement := true;
     controls := some_controls |}.

(** [{url: '/x', method: 'PUT', context: el}] *)
Definition put_in (el : node) : params :=
  {| p_id := None; p_url := Some "/x"; p_method := Some "PUT";
     p_headers := None; p_data := None; p_onSuccess := None;
     p_onError := None; p_context := Some (RNode el);
     p_contextLock := None; p_contextStatus := None |}.

(** [{url: '/x', method: 'POST', data: {name: 'Ada'}}] *)
Definition post_object : params :=
  {| p_id := None; p_url := Some "/x"; p_method := Some "POST";
     p_headers := None; p_data := Some (VObj [("name", VStr "Ada")]);
     p_onSuccess := None; p_onError := None; p_context := None;
     p_contextLock := None; p_contextStatus := None |}.


(** A [JSON.parse] that knows the body of [server_error] and nothing
    else. *)
Definition parse_boom (text : string) : option value :=
  if String.eqb text (Json.stringify (VObj [("error", VStr "boom")]))
  then Some (VObj [("error", VStr "boom")])
  else None.

End Ex.


(** ** Further vocabulary: escaping *)

(** One of the five characters [escapeHtml] replaces. *)
Definition needs_entity (c : ascii) : bool :=
  Ascii.eqb c Str.amp || raw_markup c.

(** No angle bracket and no quote in [s]. *)
Definition no_markup (s : string) : bool :=
  forallb (fun c => negb (raw_markup c)) (Str.chars s).

(** None of the five characters in [s]. *)
Definition plain_text (s : string) : bool :=
  forallb (fun c => negb (needs_entity c)) (Str.chars s).

(** ** Further vocabulary: the notifier *)

(** A notice of the generic alert whose interpolated texts hold no raw
    markup. *)
Definition escaped_notice (ev : event) : bool :=
  match ev with
  | EvShowAlert _ _ (UnexpectedBanner _ errorText) _ => no_markup errorText
  | EvAppendReport _ status statusText responseText =>
      no_markup status && no_markup statusText && no_markup responseText
  | _ => false
  end.

(** What [flat] does with the entries of an array or an object, one after
    the other. *)
Definition flat_entry (x : value) : option (list value) :=
  if is_object x then flat x else Some [x].

Fixpoint flat_entries (l : list value) : option (list value) :=
  match l with
  | [] => Some []
  | x :: r =>
      match flat_entry x with
      | None => None
      | Some a =>
          match flat_entries r with
          | None => None
          | Some b => Some (a ++ b)
          end
      end
  end.

(** Some entry, at any depth, is [null]. *)
Fixpoint null_below (v : value) : bool :=
  match v with
  | VArr items =>
      (fix any (l : list value) : bool :=
         match l with
         | [] => false
         | x :: r =>
             match x with VNull => true | _ => null_below x end || any r
         end) items
  | VObj o =>
      (fix any (l : list (string * value)) : bool :=
         match l with
         | [] => false
         | (_, x) :: r =>
             match x with VNull => true | _ => null_below x end || any r
         end) o
  | _ => false
  end.

(** A body in the shape validation errors usually come in:
    [{field: [message, ...], ...}]. *)
Definition field_errors (fields : list (string * list string)) : value :=
  VObj (map (fun f => (f.1, VArr (map VStr f.2))) fields).

(** An entry on which the walk of [flatDeep] throws. *)
Definition entry_throws (x : value) : bool :=
  match x with VNull => true | _ => null_below x end.

(** ** Further vocabulary: the shape of a run *)

(** A context option that names an HTML element, or none at all. *)
Definition element_or_unset (o : option ref) : bool :=
  match o with
  | Some (RNode n) => isHTMLElement n
  | _ => true
  end.

(** Every node the notifier can end up with is an HTML element: the
    document body and the contexts the caller names.  Such a node takes
    the loader and the alerts as children; the document itself does
    not. *)
Definition contexts_are_elements (e : env) (p : params) : bool :=
  isHTMLElement (document_body e)
  && element_or_unset (p_context p)
  && element_or_unset (p_contextLock p)
  && element_or_unset (p_contextStatus p).

Definition ident_char (c : ascii) : bool :=
  let n := nat_of_ascii c in
  ((48 <=? n) && (n <=? 57) || (65 <=? n) && (n <=? 90)
   || (97 <=? n) && (n <=? 122) || (n =? 45) || (n =? 95))%nat.

(** An id of letters, digits, hyphens and underscores: written after
    [.aj-loader-] it gives a class selector that is valid and matches the
    class the loader was given. *)
Definition safe_id (id : string) : bool := forallb ident_char (Str.chars id).

(** How a run can end once the loader is hidden: fulfilled (with or
    without [onSuccess]), rejected after [onError], rejected after the
    default alert, or cut short inside the default alert. *)
Inductive ending : list event -> Prop :=
| EndFulfilled q : ending [EvResolve q]
| EndFulfilledCb cb this d q : ending [EvOnSuccess cb this d q; EvResolve q]
| EndHandled cb this err q : ending [EvOnError cb this err q; EvReject q]
| EndAlerted notices q :
    forallb is_notice notices = true -> ending (notices ++ [EvReject q])
| EndCutShort notices :
    forallb is_notice notices = true -> ending notices.

(** The whole run: nothing at all, or clear, show, send, hide (once or
    twice), and an ending. *)
Inductive lifecycle : list event -> Prop :=
| LifeNothing : lifecycle []
| LifeRun ctxS ctxL id via url m h body hides tail :
    hides = [EvHideLoader id] \/ hides = [EvHideLoader id; EvHideLoader id] ->
    ending tail ->
    lifecycle (EvRemAlerts ctxS :: EvDisplayLoader ctxL id
               :: EvSend via url m h body :: hides ++ tail).

(** The correlation id an event carries. *)
Definition event_id (ev : event) : option string :=
  match ev with
  | EvRemAlerts _ => None
  | EvDisplayLoader _ i | EvHideLoader i | EvShowAlert _ i _ _
  | EvAppendReport i _ _ _ => Some i
  | EvSend _ _ _ h _ =>
      match h !! "X-Requested-Id" with
      | Some (VStr i) => Some i
      | _ => None
      end
  | EvOnSuccess _ _ _ q | EvOnError _ _ _ q | EvResolve q | EvReject q => q_id q
  end.

(** [ev] is the clearing of the alerts, or carries the id [i]. *)
Definition carries (i : string) (ev : event) : bool :=
  match ev, event_id ev with
  | EvRemAlerts _, _ => true
  | _, Some j => String.eqb j i
  | _, None => false
  end.


(** What a reply handler delivers, if it settles the promise. *)
Definition delivers (q : queryUi) (p : promise) : Prop :=
  match p with
  | Pending => True
  | Fulfilled q' => exists raw parsed, q' = addResponse q raw parsed
  | Rejected q' => exists failure, q' = addResponse q failure (r_data failure)
  end.

(** The failures at which the default alert shows nothing at all: a body
    with a message whose [errors] hold a [null], and status 419 without
    a body text. *)
Definition shows_nothing (x : response) : bool :=
  if is_object (r_data x) then
    let errors := prop "errors" (r_data x) in
    truthy (prop "message" (r_data x))
    && (truthy errors && negb (key_count errors =? 0)%nat && null_below errors)
  else
    match r_status x, r_responseText x with
    | Some status, None => status =? 419
    | _, _ => false
    end.

(** ** The callable instance *)

(** [{...params, context: el}] *)
Definition with_context (p : params) (r : ref) : params :=
  {| p_id := p_id p; p_url := p_url p; p_method := p_method p;
     p_headers := p_headers p; p_data := p_data p;
     p_onSuccess := p_onSuccess p; p_onError := p_onError p;
     p_context := Some r;
     p_contextLock := p_contextLock p; p_contextStatus := p_contextStatus p |}.

(** What the [apply] trap of the proxy hands to [request].  [thisArg] is
    what the instance is called on: nothing for a plain call, the
    array-like jQuery object for [$(el).httpUi(...)]. *)
Definition invoke_arg (thisArg : option (list ref)) (arg0 : arg) : arg :=
  let params :=
    match arg0 with
    | ArgString s => ArgObject (params_of (ArgString s))
    | other => other
    end in
  match thisArg with
  | Some (first :: _) =>
      if instanceof_HTMLElement first
      then ArgObject (with_context (params_of params) first)
      else params
  | _ => params
  end.

Definition invoke (JSON_stringify : value -> string)
    (JSON_parse : string -> option value) (e : env)
    (thisArg : option (list ref)) (arg0 : arg) (w : net) : M unit :=
  request JSON_stringify JSON_parse e (invoke_arg thisArg arg0) w.

(** The keys of an object, in order. *)
Definition keys (o : obj) : list string := map fst o.

Definition is_string_value (v : value) : bool :=
  match v with VStr _ => true | _ => false end.
(** * Properties *)

(** ** Lemmas on strings *)

Lemma append_cons (x : ascii) (a b : string) : String x a +:+ b = String x (a +:+ b).
Proof. reflexivity. Qed.

Lemma append_nil_l (b : string) : "" +:+ b = b.
Proof. reflexivity. Qed.

Lemma append_assoc_s (a b c : string) : (a +:+ b) +:+ c = a +:+ (b +:+ c).
Proof.
  induction a as [|x a IH]; [reflexivity|].
  rewrite !append_cons. now rewrite IH.
Qed.

Lemma append_nil_r (a : string) : a +:+ "" = a.
Proof.
  induction a as [|x a IH]; [reflexivity|].
  rewrite append_cons. now rewrite IH.
Qed.

Lemma chars_app (a b : string) : Str.chars (a +:+ b) = Str.chars a ++ Str.chars b.
Proof.
  induction a as [|x a IH]; [reflexivity|].
  rewrite append_cons. simpl. now rewrite IH.
Qed.

Lemma replace_all_app c r (a b : string) :
  Str.replace_all c r (a +:+ b) = Str.replace_all c r a +:+ Str.replace_all c r b.
Proof.
  induction a as [|x a IH]; [reflexivity|].
  rewrite append_cons. simpl.
  destruct (Ascii.eqb x c); rewrite IH;
    [now rewrite append_assoc_s | now rewrite append_cons].
Qed.

Lemma escapeHtml_app (a b : string) :
  escapeHtml (a +:+ b) = escapeHtml a +:+ escapeHtml b.
Proof. unfold escapeHtml. now rewrite !replace_all_app. Qed.

Lemma escapeHtml_one (c : ascii) : escapeHtml (String c "") = entity c.
Proof.
  unfold escapeHtml, entity.
  destruct (Ascii.eqb_spec c Str.amp) as [->|Ha]; [reflexivity|].
  destruct (Ascii.eqb_spec c Str.lt) as [->|Hl]; [reflexivity|].
  destruct (Ascii.eqb_spec c Str.gt) as [->|Hg]; [reflexivity|].
  destruct (Ascii.eqb_spec c Str.dquote) as [->|Hd]; [reflexivity|].
  destruct (Ascii.eqb_spec c Str.squote) as [->|Hs]; [reflexivity|].
  apply Ascii.eqb_neq in Ha, Hl, Hg, Hd, Hs.
  simpl. rewrite Ha. simpl. rewrite Hl. simpl. rewrite Hg. simpl.
  rewrite Hd. simpl. now rewrite Hs.
Qed.

Lemma escapeHtml_table (s : string) : escapeHtml s = escape_by_table s.
Proof.
  induction s as [|c s IH]; [reflexivity|].
  change (String c s) with (String c "" +:+ s).
  rewrite escapeHtml_app, escapeHtml_one, IH. reflexivity.
Qed.

Lemma entity_no_markup (c x : ascii) :
  In x (Str.chars (entity c)) -> raw_markup x = false.
Proof.
  unfold entity.
  destruct (Ascii.eqb_spec c Str.amp); [simpl; intuition (subst; reflexivity)|].
  destruct (Ascii.eqb_spec c Str.lt); [simpl; intuition (subst; reflexivity)|].
  destruct (Ascii.eqb_spec c Str.gt); [simpl; intuition (subst; reflexivity)|].
  destruct (Ascii.eqb_spec c Str.dquote); [simpl; intuition (subst; reflexivity)|].
  destruct (Ascii.eqb_spec c Str.squote); [simpl; intuition (subst; reflexivity)|].
  simpl. intros [<-|[]]. unfold raw_markup.
  repeat match goal with H : c <> _ |- _ => apply Ascii.eqb_neq in H; rewrite H; clear H end.
  reflexivity.
Qed.

(** C10. [escapeHtml] maps every character through the entity table
    (ampersand, angle brackets, double and single quote become their
    entities, every other character is copied), so its output holds no
    raw angle bracket or quote. *)
Theorem escapeHtml_entities (s : string) :
  escapeHtml s = escape_by_table s
  /\ forallb (fun x => negb (raw_markup x)) (Str.chars (escapeHtml s)) = true.
Proof.
  split; [apply escapeHtml_table|].
  rewrite escapeHtml_table. apply forallb_forall. intros x Hx.
  induction s as [|c s IH]; simpl in Hx; [contradiction|].
  rewrite chars_app in Hx. apply in_app_or in Hx as [Hx|Hx].
  - now rewrite (entity_no_markup c x Hx).
  - now apply IH.
Qed.

(** ** Running the monad *)

Lemma bind_ret {A B} (a : A) (f : A -> M B) : mbind f (mret a) = f a.
Proof. unfold mbind, M_bind, mret, M_ret. destruct (f a). reflexivity. Qed.

Lemma bind_emit {B} (ev : event) (k : unit -> M B) :
  mbind k (emit ev) = (ev :: trace (k tt), result (k tt)).
Proof. unfold mbind, M_bind, emit, trace, result. destruct (k tt). reflexivity. Qed.

Lemma bind_throw {A B} (err : string) (f : A -> M B) :
  mbind f (mthrow err) = ([], Throw err).
Proof. reflexivity. Qed.

Lemma trace_bind {A B} (m : M A) (f : A -> M B) :
  trace (mbind f m) =
  trace m ++ match result m with Ret a => trace (f a) | Throw _ => [] end.
Proof.
  destruct m as [tr [a|err]]; unfold mbind, M_bind, trace, result; simpl.
  - destruct (f a). reflexivity.
  - now rewrite app_nil_r.
Qed.

Lemma result_bind {A B} (m : M A) (f : A -> M B) :
  result (mbind f m) =
  match result m with Ret a => result (f a) | Throw err => Throw err end.
Proof.
  destruct m as [tr [a|err]]; unfold mbind, M_bind, trace, result; simpl.
  - destruct (f a). reflexivity.
  - reflexivity.
Qed.

Lemma pair_trace_result {A} (m : M A) : m = (trace m, result m).
Proof. now destruct m. Qed.


(** ** The default alert causes notices only *)

(** The extended alert, by the argument it is given. *)
Lemma showAlertExtended_cases u json :
  showAlertExtended u json =
    if nullish json then ([], Throw TypeError)
    else
      list ← (if truthy (prop "errors" json)
              then member (errorsToUlTree (prop "errors" json))
              else mret "") ;
      showAlert u
        (Markup ("<strong>" +:+ toStr (prop "message" json) +:+ "</strong>" +:+ list))
        (Some "danger").
Proof.
  unfold showAlertExtended, member_of.
  destruct (nullish json); [reflexivity | now rewrite bind_ret].
Qed.

Lemma showAlertExtended_notices u json :
  forallb is_notice (trace (showAlertExtended u json)) = true.
Proof.
  rewrite showAlertExtended_cases. destruct (nullish json); [reflexivity|].
  destruct (truthy (prop "errors" json)).
  - destruct (errorsToUlTree (prop "errors" json)); reflexivity.
  - reflexivity.
Qed.

Lemma showAlertUnexpected_notices u x :
  forallb is_notice (trace (showAlertUnexpected u x)) = true.
Proof.
  unfold showAlertUnexpected.
  destruct (r_status x), (r_statusText x), (r_responseText x); reflexivity.
Qed.

Lemma page_expired_test_trace x : trace (page_expired_test x) = [].
Proof.
  unfold page_expired_test.
  destruct (negb (is_object (r_data x))); [|reflexivity].
  destruct (r_status x) as [z|]; [|reflexivity].
  destruct z as [|p|p]; try reflexivity.
  destruct (r_responseText x); repeat (destruct p; try reflexivity).
Qed.

Lemma displayAlert_notices q :
  forallb is_notice (trace (displayAlert q)) = true.
Proof.
  unfold displayAlert.
  destruct (q_response q) as [x|]; [|reflexivity].
  cbn [member]. rewrite bind_ret.
  rewrite trace_bind, page_expired_test_trace. cbn [app].
  destruct (result (page_expired_test x)) as [b|]; [|reflexivity].
  unfold get_ui.
  destruct (q_ui q) as [u|]; cbn [member].
  - rewrite !bind_ret.
    destruct b; [apply showAlertExtended_notices|].
    destruct (_ && _); [apply showAlertExtended_notices | apply showAlertUnexpected_notices].
  - destruct b; [reflexivity|]. destruct (_ && _); reflexivity.
Qed.

(** ** The failure handler and the adapters, step by step *)

Lemma requestFail_run JSON_parse x q u :
  q_ui q = Some u ->
  requestFail JSON_parse x q =
    let x' := attach_body JSON_parse x in
    let q' := addResponse q x' (r_data x') in
    match q_onError q with
    | Some cb =>
        ([EvHideLoader (ui_id u); EvOnError cb (q_context q) x' q'; EvReject q'], Ret tt)
    | None =>
        (EvHideLoader (ui_id u) :: trace (displayAlert q') ++
           match result (displayAlert q') with Ret _ => [EvReject q'] | Throw _ => [] end,
         match result (displayAlert q') with Ret _ => Ret tt | Throw err => Throw err end)
    end.
Proof.
  intros Hu. unfold requestFail, get_ui. rewrite Hu. cbn [member].
  rewrite bind_ret. unfold hideLoader. cbn [or_id]. rewrite bind_emit.
  cbn zeta. cbn [addResponse q_onError q_context].
  destruct (q_onError q) as [cb|].
  - reflexivity.
  - set (q' := addResponse _ _ _).
    rewrite trace_bind, result_bind.
    destruct (displayAlert q') as [tr [[]|err]]; unfold trace, result; cbn.
    + reflexivity.
    + now rewrite app_nil_r.
Qed.

Lemma succeed_run q x d :
  succeed q x d =
    let q' := addResponse q x d in
    (match q_onSuccess q with
     | Some cb => [EvOnSuccess cb (q_context q) d q']
     | None => []
     end ++ [EvResolve q'], Ret tt).
Proof. unfold succeed. cbn. destruct (q_onSuccess q); reflexivity. Qed.

Lemma sendRequestJQuery_run JSON_parse q u reply :
  q_ui q = Some u ->
  sendRequestJQuery JSON_parse q reply =
    (EvRemAlerts (ui_contextStatus u)
     :: EvDisplayLoader (ui_contextLock u) (ui_id u)
     :: EvSend JQueryAjax (q_url q) (q_method q) (q_headers q) (q_data q)
     :: trace (on_jq_reply JSON_parse q reply),
     result (on_jq_reply JSON_parse q reply)).
Proof.
  intros Hu. unfold sendRequestJQuery, get_ui. rewrite Hu. cbn [member].
  rewrite bind_ret. unfold remAlerts, displayLoader. rewrite bind_emit.
  cbn [default or_id]. 
  destruct (on_jq_reply JSON_parse q reply) as [tr r]. reflexivity.
Qed.

Lemma sendRequestFetch_run JSON_parse q u reply :
  q_ui q = Some u ->
  sendRequestFetch JSON_parse q reply =
    (EvRemAlerts (ui_contextStatus u)
     :: EvDisplayLoader (ui_contextLock u) (ui_id u)
     :: EvSend NativeFetch (q_url q) (q_method q) (q_headers q) (q_data q)
     :: trace (on_fetch_reply JSON_parse q reply),
     result (on_fetch_reply JSON_parse q reply)).
Proof.
  intros Hu. unfold sendRequestFetch, get_ui. rewrite Hu. cbn [member].
  rewrite bind_ret. unfold remAlerts, displayLoader. rewrite bind_emit.
  cbn [default or_id]. 
  destruct (on_fetch_reply JSON_parse q reply) as [tr r]. reflexivity.
Qed.




Lemma hideLoader_then {B} u (k : M B) :
  mbind (fun _ => k) (hideLoader u None) = (EvHideLoader (ui_id u) :: trace k, result k).
Proof. unfold hideLoader. cbn [or_id]. now rewrite bind_emit. Qed.




Lemma descriptor_ui S e a :
  q_ui (descriptor S e a) =
    Some (new_ui e (set_header
                      (set_id_ui (prepareQuery S e a)
                         (or_id (p_id (params_of a)) (fresh_id e))
                         (q_ui (prepareQuery S e a)))
                      "X-Requested-Id"
                      (VStr (or_id (p_id (params_of a)) (fresh_id e))))).
Proof. reflexivity. Qed.

Lemma request_run S P e a w :
  a <> ArgNone ->
  forall u, q_ui (descriptor S e a) = Some u ->
  let q := descriptor S e a in
  let handler :=
    if has_jQuery e then on_jq_reply P q (net_jq w)
    else on_fetch_reply P q (net_fetch w) in
  request S P e a w =
    (EvRemAlerts (ui_contextStatus u)
     :: EvDisplayLoader (ui_contextLock u) (ui_id u)
     :: EvSend (transport_of e) (q_url q) (q_method q) (q_headers q) (q_data q)
     :: trace handler,
     result handler).
Proof.
  intros Ha u Hu q handler. unfold request.
  assert (Hq : request_query S e a = mret q) by (destruct a; [reflexivity..|congruence]).
  rewrite Hq, bind_ret. subst handler. unfold transport_of.
  destruct (has_jQuery e).
  - now apply sendRequestJQuery_run.
  - now apply sendRequestFetch_run.
Qed.


(** ** [indexOf] and containment *)

Lemma substring_here (s post : string) :
  String.substring 0 (String.length s) (s +:+ post) = s.
Proof.
  induction s as [|c s IH]; [now destruct post|].
  rewrite append_cons. cbn. now rewrite IH.
Qed.

Lemma substring_skip (pre s : string) (k : nat) :
  String.substring (String.length pre) k (pre +:+ s) = String.substring 0 k s.
Proof.
  induction pre as [|c pre IH]; [reflexivity|].
  rewrite append_cons. cbn. exact IH.
Qed.

Lemma substring_occurs (m : nat) (s t : string) :
  String.substring m (String.length s) t = s ->
  exists pre post, t = pre +:+ s +:+ post /\ (s <> "" -> String.length pre = m).
Proof.
  revert t. induction m as [|m IH]; intros t H.
  - exists "". revert t H. induction s as [|c s IHs]; intros t H.
    + exists t. split; [reflexivity|congruence].
    + destruct t as [|d t]; [discriminate|]. cbn in H. inversion H; subst d.
      destruct (IHs t H2) as (post & Hpost & _).
      exists post. rewrite append_nil_l in *. rewrite append_cons, H2.
      split; [now rewrite <- Hpost at 1 | reflexivity].
  - destruct t as [|d t].
    + cbn in H. exists "", "". subst s. split; [reflexivity|congruence].
    + cbn in H. destruct (IH t H) as (pre & post & -> & Hlen).
      exists (String d pre), post. split; [reflexivity|].
      intros Hs. cbn. now rewrite Hlen.
Qed.

Lemma indexOf_contains (needle hay : string) :
  0 <= Str.indexOf needle hay -> Str.contains needle hay.
Proof.
  unfold Str.indexOf, Str.contains.
  destruct (String.index 0 needle hay) as [m|] eqn:E; [intros _|lia].
  apply String.index_correct1 in E.
  destruct (substring_occurs _ _ _ E) as (pre & post & -> & _). eauto.
Qed.

Lemma contains_indexOf (needle hay : string) :
  needle <> "" -> Str.contains needle hay -> 0 <= Str.indexOf needle hay.
Proof.
  unfold Str.indexOf, Str.contains. intros Hne (pre & post & ->).
  destruct (String.index 0 needle (pre +:+ needle +:+ post)) as [m|] eqn:E; [lia|].
  exfalso.
  apply (String.index_correct3 _ (String.length pre) _ _ E Hne); [lia|].
  rewrite substring_skip. apply substring_here.
Qed.

(** [indexOf] is [0] exactly when the text starts with the needle. *)
Lemma indexOf_zero (needle hay : string) :
  needle <> "" ->
  (Str.indexOf needle hay = 0 <-> exists post, hay = needle +:+ post).
Proof.
  intros Hne. unfold Str.indexOf. split.
  - destruct (String.index 0 needle hay) as [m|] eqn:E; [|lia].
    intros Hm. assert (m = 0%nat) by lia. subst m.
    apply String.index_correct1 in E.
    destruct (substring_occurs _ _ _ E) as (pre & post & -> & Hlen).
    specialize (Hlen Hne). destruct pre; [|discriminate]. eauto.
  - intros (post & ->).
    destruct (String.index 0 needle (needle +:+ post)) as [m|] eqn:E.
    + destruct m as [|m]; [reflexivity|]. exfalso.
      apply (String.index_correct2 _ _ _ _ E 0%nat); [lia|lia|].
      apply substring_here.
    + exfalso. apply (String.index_correct3 _ 0%nat _ _ E Hne); [lia|].
      apply substring_here.
Qed.

(** ** Which alert [displayAlert] shows *)

Section Dispatch.

Variables (q : queryUi) (x : response) (u : ui).
Hypothesis Hx : q_response q = Some x.
Hypothesis Hu : q_ui q = Some u.

Lemma displayAlert_unfold :
  displayAlert q =
    expired ← page_expired_test x ;
    if (expired : bool) then showAlertPageExpired u
    else if is_object (r_data x) && truthy (prop "message" (r_data x))
         then showAlertExtended u (r_data x)
         else showAlertUnexpected u x.
Proof.
  unfold displayAlert, get_ui. rewrite Hx, Hu. cbn [member]. rewrite bind_ret.
  destruct (page_expired_test x) as [tr [b|err]]; [|reflexivity].
  unfold mbind, M_bind, mret, M_ret.
  destruct b; [now destruct (showAlertPageExpired u)|].
  destruct (_ && _);
    [now destruct (showAlertExtended u (r_data x))
    |now destruct (showAlertUnexpected u x)].
Qed.

(** No object data, status 419, the marker at a position past the start:
    the page-expired alert. *)
Lemma displayAlert_page_expired text :
  is_object (r_data x) = false -> r_status x = Some 419 ->
  r_responseText x = Some text -> 0 < Str.indexOf "Page Expired" text ->
  displayAlert q = showAlertPageExpired u.
Proof.
  intros Hd Hs Ht Hi. rewrite displayAlert_unfold. unfold page_expired_test.
  rewrite Hd, Hs, Ht. cbn [negb member]. rewrite !bind_ret.
  apply Z.ltb_lt in Hi. now rewrite Hi.
Qed.

(** Object data with a truthy [message]: the extended alert. *)
Lemma displayAlert_extended :
  is_object (r_data x) = true -> truthy (prop "message" (r_data x)) = true ->
  displayAlert q = showAlertExtended u (r_data x).
Proof.
  intros Hd Hm. rewrite displayAlert_unfold. unfold page_expired_test.
  rewrite Hd, Hm. cbn [negb andb]. now rewrite bind_ret.
Qed.

(** Everything else that gets past the first test: the generic alert. *)
Lemma displayAlert_unexpected :
  (is_object (r_data x) = true /\ truthy (prop "message" (r_data x)) = false)
  \/ (is_object (r_data x) = false /\ r_status x <> Some 419)
  \/ (is_object (r_data x) = false /\ exists text,
        r_responseText x = Some text /\ Str.indexOf "Page Expired" text <= 0) ->
  displayAlert q = showAlertUnexpected u x.
Proof.
  intros H. rewrite displayAlert_unfold. unfold page_expired_test.
  destruct H as [[Hd Hm]|[[Hd Hs]|(Hd & text & Ht & Hi)]]; rewrite Hd; cbn [negb andb].
  - now rewrite bind_ret, Hm.
  - destruct (r_status x) as [z|]; [|now rewrite bind_ret].
    destruct (Z.eq_dec z 419) as [->|Hz]; [congruence|].
    assert (E : match z with 419 => (text ← member (r_responseText x) ;
                   mret (0 <? Str.indexOf "Page Expired" text)) | _ => mret false end
                = (mret false : M bool)).
    { destruct z as [|p|p]; try reflexivity.
      do 9 (destruct p; try reflexivity). congruence. }
    rewrite E. now rewrite bind_ret.
  - rewrite Ht. cbn [member].
    destruct (r_status x) as [z|]; [|now rewrite bind_ret].
    assert (Hb : (0 <? Str.indexOf "Page Expired" text) = false) by (apply Z.ltb_ge; lia).
    destruct z as [|p|p]; try (now rewrite bind_ret).
    do 9 (destruct p; try (now rewrite bind_ret)).
    rewrite !bind_ret, Hb. reflexivity.
Qed.

(** A body-less failure object with status 419 and no object data stops
    the first test with a [TypeError]. *)
Lemma displayAlert_no_text :
  is_object (r_data x) = false -> r_status x = Some 419 ->
  r_responseText x = None ->
  displayAlert q = ([], Throw TypeError).
Proof.
  intros Hd Hs Ht. rewrite displayAlert_unfold. unfold page_expired_test.
  now rewrite Hd, Hs, Ht.
Qed.

End Dispatch.

(** The generic alert completes exactly on a failure object that has all
    of [status], [statusText] and [responseText]. *)
Lemma showAlertUnexpected_result u x :
  result (showAlertUnexpected u x) =
    match r_status x, r_statusText x, r_responseText x with
    | Some _, Some _, Some _ => Ret tt
    | _, _, _ => Throw TypeError
    end.
Proof.
  unfold showAlertUnexpected.
  destruct (r_status x), (r_statusText x), (r_responseText x); reflexivity.
Qed.

Lemma showAlertPageExpired_run u :
  showAlertPageExpired u =
    ([ EvShowAlert (ui_contextStatus u) (ui_id u)
         (Markup "<strong>Page Expired</strong><ul><li>Please reload the page.</li></ul>")
         "danger" ], Ret tt).
Proof. reflexivity. Qed.

Lemma showAlertExtended_result u json :
  result (showAlertExtended u json) =
    if nullish json then Throw TypeError
    else if truthy (prop "errors" json)
    then match errorsToUlTree (prop "errors" json) with
         | Some _ => Ret tt
         | None => Throw TypeError
         end
    else Ret tt.
Proof.
  rewrite showAlertExtended_cases. destruct (nullish json); [reflexivity|].
  destruct (truthy (prop "errors" json)); [|reflexivity].
  now destruct (errorsToUlTree (prop "errors" json)).
Qed.

(** ** The failure handler and the default alert at concrete failures *)

Lemma settled_notices tr : forallb is_notice tr = true -> settled tr = Pending.
Proof.
  induction tr as [|ev tr IH]; [reflexivity|].
  cbn [forallb]. intros H. apply andb_prop in H as [Hev Htr].
  destruct ev; try discriminate; cbn [settled]; now apply IH.
Qed.

Lemma settled_app_notices tr tr' :
  forallb is_notice tr = true -> settled (tr ++ tr') = settled tr'.
Proof.
  induction tr as [|ev tr IH]; [reflexivity|].
  cbn [forallb]. intros H. apply andb_prop in H as [Hev Htr].
  destruct ev; try discriminate; cbn [settled app]; now apply IH.
Qed.

(** When the failure handler settles the promise: always with an
    [onError], and without one exactly when the default alert returns. *)
Lemma requestFail_settles JSON_parse x q u :
  q_ui q = Some u ->
  settled (trace (requestFail JSON_parse x q)) =
    let x' := attach_body JSON_parse x in
    let q' := addResponse q x' (r_data x') in
    match q_onError q with
    | Some _ => Rejected q'
    | None =>
        match result (displayAlert q') with
        | Ret _ => Rejected q'
        | Throw _ => Pending
        end
    end.
Proof.
  intros Hu. rewrite (requestFail_run _ _ _ _ Hu). cbn zeta.
  destruct (q_onError q) as [cb|]; [reflexivity|].
  unfold trace at 1. cbn [fst settled].
  rewrite settled_app_notices by apply displayAlert_notices.
  now destruct (result _).
Qed.

(** C1, at a failure every fetch-style call can meet: the server answers
    500 with a JSON body that has no [message], the caller gave no
    [onError].  The handler hides the loader and starts the default alert,
    the alert throws on the missing [responseText], and [reject] is never
    reached: the promise stays pending. *)
Theorem requestFail_never_rejects (JSON_stringify : value -> string)
    (JSON_parse : string -> option value) :
  let run :=
    request JSON_stringify JSON_parse Ex.page_fetch (ArgObject Ex.just_url)
      Ex.server_error in
  result run = Throw TypeError
  /\ settled (trace run) = Pending
  /\ skipn 3 (trace run) =
       [ EvHideLoader "1700000000000-ff";
         EvHideLoader "1700000000000-ff";
         EvShowAlert Ex.body "1700000000000-ff"
           (UnexpectedBanner "&#9888; "
              "The server encountered a 500 - unknown error") "danger" ].
Proof. vm_compute. repeat split. Qed.

(** The same failure with an [onError]: the callback runs after the
    loader is hidden and the promise is rejected with the descriptor that
    carries the failure object. *)
Lemma requestFail_with_onError JSON_parse x q u cb :
  q_ui q = Some u -> q_onError q = Some cb ->
  let x' := attach_body JSON_parse x in
  let q' := addResponse q x' (r_data x') in
  requestFail JSON_parse x q =
    ([EvHideLoader (ui_id u); EvOnError cb (q_context q) x' q'; EvReject q'], Ret tt).
Proof. intros Hu Hcb. rewrite (requestFail_run _ _ _ _ Hu), Hcb. reflexivity. Qed.

(** A jqXHR with status, status text and a body that is not JSON: the
    default alert completes and the promise is rejected. *)
Lemma requestFail_rejects_plain_body JSON_parse x q u status statusText body :
  q_ui q = Some u -> q_onError q = None ->
  r_status x = Some status -> status <> 419 ->
  r_statusText x = Some statusText ->
  r_responseText x = Some body -> JSON_parse body = None ->
  is_object (r_data x) = false ->
  settled (trace (requestFail JSON_parse x q)) =
    Rejected (addResponse q x (r_data x)).
Proof.
  intros Hu He Hs Hne Ht Hb Hp Hd.
  rewrite (requestFail_settles _ _ _ _ Hu), He. cbn zeta.
  assert (Hx : attach_body JSON_parse x = x)
    by (unfold attach_body; now rewrite Hb, Hp).
  rewrite Hx.
  rewrite (displayAlert_unexpected (addResponse q x (r_data x)) x u eq_refl Hu).
  - now rewrite showAlertUnexpected_result, Hs, Ht, Hb.
  - right. left. split; [exact Hd|]. rewrite Hs. congruence.
Qed.

(** C2, at a body that starts with the marker: status 419, no parsed
    data, body text [Page Expired].  The marker is contained, yet the
    generic alert is shown, not the page-expired one. *)
Theorem page_expired_at_start_missed :
  is_object (r_data Ex.expired_at_start) = false
  /\ r_status Ex.expired_at_start = Some 419
  /\ Str.contains "Page Expired" "Page Expired"
  /\ displayAlert (Ex.failed Ex.expired_at_start) =
       showAlertUnexpected Ex.notifier Ex.expired_at_start
  /\ displayAlert (Ex.failed Ex.expired_at_start) =
       ([ EvShowAlert Ex.body "r1"
            (UnexpectedBanner "&#9888; " "An error occurred: 419 unknown status")
            "danger";
          EvAppendReport "r1" "419" "unknown status" "Page Expired" ], Ret tt)
  /\ showAlertPageExpired Ex.notifier =
       ([ EvShowAlert Ex.body "r1"
            (Markup "<strong>Page Expired</strong><ul><li>Please reload the page.</li></ul>")
            "danger" ], Ret tt).
Proof.
  repeat split; try reflexivity.
  exists "", "". reflexivity.
Qed.

(** With the marker anywhere but at the start the page-expired alert is
    the one shown. *)
Lemma page_expired_inside_shown :
  displayAlert (Ex.failed Ex.expired_page) = showAlertPageExpired Ex.notifier.
Proof. reflexivity. Qed.

(** A failure with the body [{message: 'Validation failed', errors:
    {name: ['required']}}]: the message, then a one-item list. *)
Lemma validation_failed_alert :
  displayAlert
    (Ex.failed
       {| r_data :=
            VObj [ ("message", VStr "Validation failed");
                   ("errors", VObj [("name", VArr [VStr "required"])]) ];
          r_status := Some 422; r_statusText := Some "Unprocessable Content";
          r_responseText := None |}) =
    ([ EvShowAlert Ex.body "r1"
         (Markup "<strong>Validation failed</strong><ul><li>required</li></ul>")
         "danger" ], Ret tt).
Proof. reflexivity. Qed.

(** A [null] inside [errors] stops the extended alert before anything is
    shown. *)
Lemma null_error_entry_throws :
  displayAlert
    (Ex.failed
       {| r_data :=
            VObj [ ("message", VStr "Validation failed");
                   ("errors", VObj [("name", VNull)]) ];
          r_status := Some 422; r_statusText := Some "Unprocessable Content";
          r_responseText := None |}) = ([], Throw TypeError).
Proof. reflexivity. Qed.
(** ** Attaching the result *)

Lemma settled_succeed q x d :
  settled (trace (succeed q x d)) = Fulfilled (addResponse q x d).
Proof. rewrite succeed_run. cbn. now destruct (q_onSuccess q). Qed.






(** ** The build under [src/src/httpUi.js] *)

Lemma inline_succeed_settles q x d :
  settled (trace (Inline.succeed q x d)) = Fulfilled (Inline.attach q x d).
Proof. unfold Inline.succeed. cbn. now destruct (q_onSuccess q). Qed.

Lemma inline_requestFail_settles P x q u :
  q_ui q = Some u ->
  settled (trace (Inline.requestFail P x q)) =
    let x' := attach_body P x in
    let q' := Inline.attach_failure q x' in
    match q_onError q with
    | Some _ => Rejected q'
    | None =>
        match result (displayAlert q') with
        | Ret _ => Rejected q'
        | Throw _ => Pending
        end
    end.
Proof.
  intros Hu. unfold Inline.requestFail, get_ui. rewrite Hu. cbn [member].
  rewrite bind_ret. unfold hideLoader. cbn [or_id]. rewrite bind_emit.
  cbn zeta. cbn [Inline.attach_failure q_onError q_context].
  destruct (q_onError q) as [cb|]; [reflexivity|].
  set (q' := Inline.attach_failure q _).
  unfold trace at 1. cbn [fst settled].
  rewrite trace_bind. rewrite settled_app_notices by apply displayAlert_notices.
  now destruct (result (displayAlert q')).
Qed.

Lemma inline_on_jq_reply_settles P q u reply :
  q_ui q = Some u ->
  settled (trace (Inline.on_jq_reply P q reply)) =
    match jq_completion reply with
    | Succeeded raw parsed => Fulfilled (Inline.attach q raw parsed)
    | Failed failure => settled (trace (Inline.requestFail P failure q))
    end.
Proof.
  intros Hu. destruct reply as [d x|x]; cbn [Inline.on_jq_reply jq_completion];
    [|reflexivity].
  unfold get_ui. rewrite Hu. cbn [member]. rewrite bind_ret, hideLoader_then.
  unfold trace at 1. cbn [fst settled]. apply inline_succeed_settles.
Qed.

Lemma inline_on_fetch_reply_settles P q u reply :
  q_ui q = Some u ->
  settled (trace (Inline.on_fetch_reply P q reply)) =
    match fetch_completion reply with
    | Succeeded raw parsed => Fulfilled (Inline.attach q raw parsed)
    | Failed failure => settled (trace (Inline.requestFail P failure q))
    end.
Proof.
  intros Hu. destruct reply as [|ok st stt body]; [reflexivity|].
  cbn [Inline.on_fetch_reply].
  unfold get_ui. rewrite Hu. cbn [member]. rewrite bind_ret, hideLoader_then.
  unfold trace at 1. cbn [fst settled].
  destruct body as [d|], ok; cbn [fetch_completion];
    [apply inline_succeed_settles | reflexivity..].
Qed.

Lemma inline_request_run S P e a w u :
  a <> ArgNone -> q_ui (descriptor S e a) = Some u ->
  settled (trace (Inline.request S P e a w)) =
    settled (trace (if has_jQuery e
                    then Inline.on_jq_reply P (descriptor S e a) (net_jq w)
                    else Inline.on_fetch_reply P (descriptor S e a) (net_fetch w))).
Proof.
  intros Ha Hu. unfold Inline.request.
  assert (Hq : request_query S e a = mret (descriptor S e a))
    by (destruct a; [reflexivity..|congruence]).
  rewrite Hq, bind_ret. revert Hu. generalize (descriptor S e a). intros q Hu.
  destruct (has_jQuery e).
  - unfold Inline.sendRequestJQuery, get_ui. rewrite Hu. cbn [member].
    rewrite bind_ret. unfold remAlerts, displayLoader. rewrite bind_emit.
    cbn [default or_id].
    now destruct (Inline.on_jq_reply P q (net_jq w)).
  - unfold Inline.sendRequestFetch, get_ui. rewrite Hu. cbn [member].
    rewrite bind_ret. unfold remAlerts, displayLoader. rewrite bind_emit.
    cbn [default or_id].
    now destruct (Inline.on_fetch_reply P q (net_fetch w)).
Qed.

(** In the build under [src/src/httpUi.js] a successful reply fulfils the
    promise with [data] and [response] assigned, a failed one rejects it
    with [response] assigned and [data] left as it was sent; no field
    [requestData] is set on either path. *)
Lemma inline_request_settles S P e a w :
  a <> ArgNone ->
  let q := descriptor S e a in
  settled (trace (Inline.request S P e a w)) =
    match completion_of e w with
    | Succeeded raw parsed => Fulfilled (Inline.attach q raw parsed)
    | Failed failure =>
        let failure' := attach_body P failure in
        let q' := Inline.attach_failure q failure' in
        match q_onError q with
        | Some _ => Rejected q'
        | None =>
            match result (displayAlert q') with
            | Ret _ => Rejected q'
            | Throw _ => Pending
            end
        end
    end.
Proof.
  intros Ha. cbv zeta. pose proof (descriptor_ui S e a) as Hu.
  rewrite (inline_request_run S P e a w _ Ha Hu). unfold completion_of.
  revert Hu. generalize (new_ui e
          (set_header
             (set_id_ui (prepareQuery S e a)
                (or_id (p_id (params_of a)) (fresh_id e))
                (q_ui (prepareQuery S e a))) "X-Requested-Id"
             (VStr (or_id (p_id (params_of a)) (fresh_id e))))).
  generalize (descriptor S e a). intros q u Hu.
  destruct (has_jQuery e).
  - rewrite (inline_on_jq_reply_settles P q u _ Hu).
    destruct (jq_completion (net_jq w)); [reflexivity|].
    apply (inline_requestFail_settles P _ q u Hu).
  - rewrite (inline_on_fetch_reply_settles P q u _ Hu).
    destruct (fetch_completion (net_fetch w)); [reflexivity|].
    apply (inline_requestFail_settles P _ q u Hu).
Qed.

(** The inline variant agrees with [addResponse] on every field but
    [requestData], which it never sets. *)
Lemma inline_attach_no_requestData q raw d :
  Inline.attach q raw d =
    {| q_id := q_id q; q_url := q_url q; q_method := q_method q;
       q_headers := q_headers q; q_data := q_data (addResponse q raw d);
       q_onSuccess := q_onSuccess q; q_onError := q_onError q;
       q_context := q_context q; q_contextLock := q_contextLock q;
       q_contextStatus := q_contextStatus q; q_ui := q_ui q;
       q_response := q_response (addResponse q raw d);
       q_requestData := q_requestData q |}.
Proof. reflexivity. Qed.

(** ** The shorthand methods *)


(** A payload given positionally never reaches the transport. *)
Lemma post_payload_not_sent JSON_stringify JSON_parse :
  trace (post JSON_stringify JSON_parse Ex.page_fetch "/x"
           (VObj [("name", VStr "Ada")]) None Ex.server_error) !! 2%nat =
    Some (EvSend NativeFetch (Some "/x") "POST"
            (<["X-Requested-Id" := VStr "1700000000000-ff"]>
               (<["Content-Type" := VStr "application/json"]>
                  (default_headers Ex.page_fetch)))
            (VStr (JSON_stringify (VObj [])))).
Proof. reflexivity. Qed.

(** ** Context defaults *)

Lemma derive_payload_frame q :
  q_context (derive_payload q) = q_context q
  /\ q_contextLock (derive_payload q) = q_contextLock q
  /\ q_contextStatus (derive_payload q) = q_contextStatus q
  /\ q_headers (derive_payload q) = q_headers q
  /\ q_method (derive_payload q) = q_method q.
Proof.
  unfold derive_payload.
  destruct (_ && _); [|repeat split].
  destruct (q_context q) eqn:E; cbn; rewrite ?E; repeat split.
Qed.

Lemma encode_payload_frame S q :
  q_context (encode_payload S q) = q_context q
  /\ q_contextLock (encode_payload S q) = q_contextLock q
  /\ q_contextStatus (encode_payload S q) = q_contextStatus q
  /\ q_method (encode_payload S q) = q_method q.
Proof. unfold encode_payload. destruct (_ && _); repeat split. Qed.

Lemma resolve_contexts_frame q :
  q_context (resolve_contexts q) = q_context q
  /\ q_headers (resolve_contexts q) = q_headers q
  /\ q_data (resolve_contexts q) = q_data q
  /\ q_method (resolve_contexts q) = q_method q.
Proof.
  unfold resolve_contexts.
  destruct (negb (ref_truthy (q_contextLock q))); cbn;
    match goal with |- context [if ?b then _ else _] => destruct b end;
    repeat split.
Qed.

Lemma prepareQuery_context S e a :
  q_context (prepareQuery S e a) =
    default (RNode (document_body e)) (p_context (params_of a)).
Proof.
  unfold prepareQuery.
  rewrite (proj1 (resolve_contexts_frame _)), (proj1 (encode_payload_frame _ _)),
    (proj1 (derive_payload_frame _)).
  reflexivity.
Qed.

Lemma resolve_contexts_lock q :
  q_contextLock (resolve_contexts q) =
    if ref_truthy (q_contextLock q) then q_contextLock q else q_context q.
Proof.
  unfold resolve_contexts.
  destruct (ref_truthy (q_contextLock q)); cbn;
    match goal with |- context [if ?b then _ else _] => destruct b end;
    reflexivity.
Qed.

Lemma resolve_contexts_status q :
  q_contextStatus (resolve_contexts q) =
    if ref_truthy (q_contextStatus q) then q_contextStatus q else q_context q.
Proof.
  unfold resolve_contexts.
  destruct (negb (ref_truthy (q_contextLock q))); cbn;
    destruct (ref_truthy (q_contextStatus q)); reflexivity.
Qed.

Lemma unspecified_default o :
  unspecified o = true -> ref_truthy (default RUndef o) = false.
Proof. destruct o as [[| |n]|]; [reflexivity..|discriminate|reflexivity]. Qed.

Lemma prepareQuery_lock S e a :
  q_contextLock (prepareQuery S e a) =
    if ref_truthy (default RUndef (p_contextLock (params_of a)))
    then default RUndef (p_contextLock (params_of a))
    else q_context (prepareQuery S e a).
Proof.
  rewrite prepareQuery_context. unfold prepareQuery.
  rewrite resolve_contexts_lock.
  destruct (encode_payload_frame S (derive_payload (new_queryUi e a))) as (Hc & Hl & _).
  destruct (derive_payload_frame (new_queryUi e a)) as (Hc' & Hl' & _).
  rewrite Hc, Hl, Hc', Hl'. reflexivity.
Qed.

Lemma prepareQuery_status S e a :
  q_contextStatus (prepareQuery S e a) =
    if ref_truthy (default RUndef (p_contextStatus (params_of a)))
    then default RUndef (p_contextStatus (params_of a))
    else q_context (prepareQuery S e a).
Proof.
  rewrite prepareQuery_context. unfold prepareQuery.
  rewrite resolve_contexts_status.
  destruct (encode_payload_frame S (derive_payload (new_queryUi e a))) as (Hc & _ & Hs & _).
  destruct (derive_payload_frame (new_queryUi e a)) as (Hc' & _ & Hs' & _).
  rewrite Hc, Hs, Hc', Hs'. reflexivity.
Qed.

(** C8. When the caller leaves [contextLock] (respectively
    [contextStatus]) unspecified, the prepared descriptor and the one
    handed to the transport carry the descriptor's context in its place,
    and the notifier built from the descriptor places the loader
    (respectively the alerts) in its own context, which is the
    descriptor's context whenever that is a node. *)
Theorem unspecified_contexts_resolve (JSON_stringify : value -> string)
    (e : env) (p : params) :
  let q := prepareQuery JSON_stringify e (ArgObject p) in
  let d := descriptor JSON_stringify e (ArgObject p) in
  (unspecified (p_contextLock p) = true ->
     q_contextLock q = q_context q
     /\ q_contextLock d = q_context d
     /\ exists u, q_ui d = Some u
          /\ ui_contextLock u = ui_context u
          /\ forall n, q_context d = RNode n -> ui_contextLock u = n)
  /\ (unspecified (p_contextStatus p) = true ->
     q_contextStatus q = q_context q
     /\ q_contextStatus d = q_context d
     /\ exists u, q_ui d = Some u
          /\ ui_contextStatus u = ui_context u
          /\ forall n, q_context d = RNode n -> ui_contextStatus u = n).
Proof.
  intros q d. split; intros Hun.
  - assert (Hq : q_contextLock q = q_context q).
    { subst q. rewrite prepareQuery_lock. cbn [params_of].
      now rewrite (unspecified_default _ Hun). }
    split; [exact Hq|]. split; [exact Hq|].
    eexists. split; [reflexivity|]. cbn.
    fold q. rewrite Hq. split.
    + now destruct (q_context q).
    + now intros n ->.
  - assert (Hq : q_contextStatus q = q_context q).
    { subst q. rewrite prepareQuery_status. cbn [params_of].
      now rewrite (unspecified_default _ Hun). }
    split; [exact Hq|]. split; [exact Hq|].
    eexists. split; [reflexivity|]. cbn.
    fold q. rewrite Hq. split.
    + now destruct (q_context q).
    + now intros n ->.
Qed.

(** C8 at a PUT that names a [div] as its context and nothing else. *)
Lemma unspecified_contexts_witness :
  let d := descriptor Json.stringify Ex.page_fetch (ArgObject (Ex.put_in Ex.panel)) in
  q_contextLock d = RNode Ex.panel
  /\ q_contextStatus d = RNode Ex.panel
  /\ exists u, q_ui d = Some u
       /\ ui_contextLock u = Ex.panel /\ ui_contextStatus u = Ex.panel.
Proof.
  destruct (unspecified_contexts_resolve Json.stringify Ex.page_fetch
              (Ex.put_in Ex.panel)) as [HL HS].
  destruct (HL eq_refl) as (_ & Hl & u & Hu & _ & Hn).
  destruct (HS eq_refl) as (_ & Hs & u' & Hu' & _ & Hn').
  cbv zeta. split; [exact Hl|]. split; [exact Hs|].
  exists u. split; [exact Hu|].
  rewrite Hu in Hu'. injection Hu' as <-.
  split; [apply Hn | apply Hn']; reflexivity.
Defined.

(** ** Headers and payload of the network call *)

Lemma request_sends S P e a w :
  sent (trace (request S P e a w)) =
    match a with
    | ArgNone => None
    | _ =>
        let q := descriptor S e a in
        Some (EvSend (transport_of e) (q_url q) (q_method q) (q_headers q) (q_data q))
    end.
Proof.
  assert (Hgo : a <> ArgNone ->
    sent (trace (request S P e a w)) =
      let q := descriptor S e a in
      Some (EvSend (transport_of e) (q_url q) (q_method q) (q_headers q) (q_data q))).
  { intros Ha. rewrite (request_run _ _ _ _ _ Ha _ (descriptor_ui S e a)). reflexivity. }
  destruct a; [apply Hgo; discriminate..|reflexivity].
Qed.

Lemma descriptor_headers S e a :
  q_headers (descriptor S e a) =
    <["X-Requested-Id" := VStr (ajaxId e a)]> (q_headers (prepareQuery S e a)).
Proof. reflexivity. Qed.

Lemma prepareQuery_headers S e a :
  q_headers (prepareQuery S e a) =
    let q0 := derive_payload (new_queryUi e a) in
    if truthy (q_data q0) && (typeof (q_data q0) =? "object")%string
       && negb (instanceof_FormData (q_data q0))
    then <["Content-Type" := VStr "application/json"]> (q_headers (new_queryUi e a))
    else q_headers (new_queryUi e a).
Proof.
  unfold prepareQuery. rewrite (proj1 (proj2 (resolve_contexts_frame _))).
  cbn zeta. unfold encode_payload.
  destruct (derive_payload_frame (new_queryUi e a)) as (_ & _ & _ & Hh & _).
  destruct (_ && _); cbn; now rewrite Hh.
Qed.

Lemma prepareQuery_data S e a :
  q_data (prepareQuery S e a) =
    let q0 := derive_payload (new_queryUi e a) in
    if truthy (q_data q0) && (typeof (q_data q0) =? "object")%string
       && negb (instanceof_FormData (q_data q0))
    then VStr (S (q_data q0))
    else q_data q0.
Proof.
  unfold prepareQuery. rewrite (proj1 (proj2 (proj2 (resolve_contexts_frame _)))).
  cbn zeta. unfold encode_payload.
  destruct (_ && _); reflexivity.
Qed.

Lemma descriptor_data S e a : q_data (descriptor S e a) = q_data (prepareQuery S e a).
Proof. reflexivity. Qed.

(** C4, amended.  When the parameters bring no [headers] of their own,
    the descriptor carries [Accept], [X-Requested-With], [X-CSRF-TOKEN]
    (the meta tag's content, [undefined] without the tag) and
    [X-Requested-Id], and these are the headers of the network call. *)
Theorem default_headers_sent (JSON_stringify : value -> string) (e : env) (a : arg) :
  p_headers (params_of a) = None ->
  let q := descriptor JSON_stringify e a in
  q_headers q !! "Accept" = Some (VStr "application/json, text/javascript")
  /\ q_headers q !! "X-Requested-With" = Some (VStr "XMLHttpRequest")
  /\ q_headers q !! "X-CSRF-TOKEN" =
       Some (match csrf_meta e with Some c => VStr c | None => VUndef end)
  /\ q_headers q !! "X-Requested-Id" = Some (VStr (ajaxId e a))
  /\ forall JSON_parse w,
       sent (trace (request JSON_stringify JSON_parse e a w)) =
         match a with
         | ArgNone => None
         | _ => Some (EvSend (transport_of e) (q_url q) (q_method q)
                        (q_headers q) (q_data q))
         end.
Proof.
  intros Hh q. subst q. rewrite descriptor_headers, prepareQuery_headers. cbn zeta.
  assert (Hn : q_headers (new_queryUi e a) = default_headers e).
  { unfold new_queryUi. cbn. now rewrite Hh. }
  rewrite Hn.
  repeat split.
  1-4: destruct (_ && _); unfold default_headers; now simplify_map_eq.
  intros P w. rewrite request_sends.
  destruct a; cbn zeta; rewrite ?descriptor_headers, ?prepareQuery_headers;
    cbn zeta; rewrite ?Hn; reflexivity.
Qed.

(** C4 at [request({url: '/x'})] on a page with a CSRF meta tag. *)
Lemma default_headers_sent_witness :
  let q := descriptor Json.stringify Ex.page_jquery (ArgObject Ex.just_url) in
  q_headers q !! "Accept" = Some (VStr "application/json, text/javascript")
  /\ q_headers q !! "X-Requested-With" = Some (VStr "XMLHttpRequest")
  /\ q_headers q !! "X-CSRF-TOKEN" = Some (VStr "s3cr3t")
  /\ q_headers q !! "X-Requested-Id" = Some (VStr "1700000000000-ff").
Proof.
  pose proof (default_headers_sent Json.stringify Ex.page_jquery
                (ArgObject Ex.just_url) eq_refl) as H.
  cbv zeta in H. destruct H as (HA & HX & HC & HI & _).
  repeat split; assumption.
Defined.

(** Headers the caller supplies replace the defaults: the descriptor
    carries them with [X-Requested-Id] (and, for an encoded payload,
    [Content-Type]) laid over. *)
Lemma caller_headers_kept S e a h :
  p_headers (params_of a) = Some h ->
  q_headers (descriptor S e a) =
    <["X-Requested-Id" := VStr (ajaxId e a)]>
      (if encodes (derive_payload (new_queryUi e a))
       then <["Content-Type" := VStr "application/json"]> h else h).
Proof.
  intros Hh. rewrite descriptor_headers, prepareQuery_headers. cbn zeta.
  unfold encodes.
  assert (Hn : q_headers (new_queryUi e a) = h).
  { unfold new_queryUi. cbn. now rewrite Hh. }
  now rewrite Hn.
Qed.

(** C4 as stated fails at [request({url: '/x', headers: {'X-Foo': 'bar'}})]
    on a page with jQuery and a CSRF meta tag: of the four headers only
    [X-Requested-Id] is there. *)
Lemma caller_headers_replace_defaults :
  let q := descriptor Json.stringify Ex.page_jquery (ArgObject Ex.own_headers) in
  p_headers Ex.own_headers = Some {[ "X-Foo" := VStr "bar" ]}
  /\ q_headers q = <["X-Requested-Id" := VStr "1700000000000-ff"]> {[ "X-Foo" := VStr "bar" ]}
  /\ q_headers q !! "Accept" = None
  /\ q_headers q !! "X-Requested-With" = None
  /\ q_headers q !! "X-CSRF-TOKEN" = None.
Proof. repeat split. Qed.

Lemma plain_object_encodes q : plain_object (q_data q) = true -> encodes q = true.
Proof. unfold encodes. now destruct (q_data q). Qed.

Lemma FormData_not_encoded q : instanceof_FormData (q_data q) = true -> encodes q = false.
Proof. unfold encodes. now destruct (q_data q). Qed.

(** C6. When the payload left by the first step of [#prepareQuery] is a
    plain object or an array, the descriptor carries its JSON text and
    the header [Content-Type: application/json], and the network call is
    made with both; a FormData payload is handed on as it is, and the
    headers gain nothing but the correlation id. *)
Theorem object_payload_encoded (JSON_stringify : value -> string) (e : env) (a : arg) :
  let q0 := derive_payload (new_queryUi e a) in
  let q := descriptor JSON_stringify e a in
  (plain_object (q_data q0) = true ->
     q_data q = VStr (JSON_stringify (q_data q0))
     /\ q_headers q !! "Content-Type" = Some (VStr "application/json")
     /\ forall JSON_parse w,
          sent (trace (request JSON_stringify JSON_parse e a w)) =
            Some (EvSend (transport_of e) (q_url q) (q_method q)
                    (<["X-Requested-Id" := VStr (ajaxId e a)]>
                       (<["Content-Type" := VStr "application/json"]>
                          (q_headers (new_queryUi e a))))
                    (VStr (JSON_stringify (q_data q0)))))
  /\ (instanceof_FormData (q_data q0) = true ->
     q_data q = q_data q0
     /\ q_headers q =
          <["X-Requested-Id" := VStr (ajaxId e a)]> (q_headers (new_queryUi e a))
     /\ q_headers q !! "Content-Type" = q_headers (new_queryUi e a) !! "Content-Type"
     /\ forall JSON_parse w,
          sent (trace (request JSON_stringify JSON_parse e a w)) =
            Some (EvSend (transport_of e) (q_url q) (q_method q)
                    (<["X-Requested-Id" := VStr (ajaxId e a)]>
                       (q_headers (new_queryUi e a)))
                    (q_data q0))).
Proof.
  intros q0 q.
  assert (Hne : q_data q0 <> VUndef -> a <> ArgNone).
  { intros Hd ->. apply Hd. reflexivity. }
  split; intros Hp.
  - pose proof (plain_object_encodes q0 Hp) as He. unfold encodes in He.
    assert (Hd : q_data q = VStr (JSON_stringify (q_data q0))).
    { subst q. rewrite descriptor_data, prepareQuery_data. cbn zeta. fold q0. now rewrite He. }
    assert (Hh : q_headers q =
              <["X-Requested-Id" := VStr (ajaxId e a)]>
                (<["Content-Type" := VStr "application/json"]> (q_headers (new_queryUi e a)))).
    { subst q. rewrite descriptor_headers, prepareQuery_headers. cbn zeta. fold q0. now rewrite He. }
    split; [exact Hd|]. split; [rewrite Hh; now simplify_map_eq|].
    intros P w. rewrite request_sends.
    assert (Ha : a <> ArgNone) by (apply Hne; intros E; rewrite E in Hp; discriminate).
    destruct a; [| |congruence]; cbn zeta; fold q; now rewrite Hd, Hh.
  - pose proof (FormData_not_encoded q0 Hp) as He. unfold encodes in He.
    assert (Hd : q_data q = q_data q0).
    { subst q. rewrite descriptor_data, prepareQuery_data. cbn zeta. fold q0. now rewrite He. }
    assert (Hh : q_headers q =
              <["X-Requested-Id" := VStr (ajaxId e a)]> (q_headers (new_queryUi e a))).
    { subst q. rewrite descriptor_headers, prepareQuery_headers. cbn zeta. fold q0. now rewrite He. }
    split; [exact Hd|]. split; [exact Hh|]. split; [rewrite Hh; now simplify_map_eq|].
    intros P w. rewrite request_sends.
    assert (Ha : a <> ArgNone) by (apply Hne; intros E; rewrite E in Hp; discriminate).
    destruct a; [| |congruence]; cbn zeta; fold q; now rewrite Hd, Hh.
Qed.

(** [null] is no object for this step: it is falsy, and is handed on. *)
Lemma null_payload_untouched S e a :
  q_data (derive_payload (new_queryUi e a)) = VNull ->
  q_data (descriptor S e a) = VNull.
Proof.
  intros H. rewrite descriptor_data, prepareQuery_data. cbn zeta. now rewrite H.
Qed.

(** C6 at [{url: '/x', method: 'POST', data: {name: 'Ada'}}] and at a PUT
    whose context is a [form]. *)
Lemma object_payload_encoded_witness :
  (let q := descriptor Json.stringify Ex.page_fetch (ArgObject Ex.post_object) in
   q_data q = VStr (Json.stringify (VObj [("name", VStr "Ada")]))
   /\ q_headers q !! "Content-Type" = Some (VStr "application/json"))
  /\ (let q := descriptor Json.stringify Ex.page_fetch (ArgObject (Ex.put_in Ex.form)) in
      q_data q = VFormData Ex.form
      /\ q_headers q !! "Content-Type" = None).
Proof.
  split.
  - destruct (object_payload_encoded Json.stringify Ex.page_fetch
                (ArgObject Ex.post_object)) as [H _].
    destruct (H eq_refl) as (Hd & Hh & _). split; [exact Hd | exact Hh].
  - destruct (object_payload_encoded Json.stringify Ex.page_fetch
                (ArgObject (Ex.put_in Ex.form))) as [_ H].
    destruct (H eq_refl) as (Hd & _ & Hh & _). split; [exact Hd | exact Hh].
Defined.

(** ** Serializing the controls of a context *)









(** The three tests of the [forEach] callback, in its order; the goals
    come out as checkbox, radio, list select, other. *)
Ltac rule_cases i :=
  destruct (String.eqb (in_type i) "checkbox");
  [| destruct (String.eqb (in_type i) "radio");
     [| destruct (is_multi_list i) ] ].



Lemma serialize_controls_split pre i post :
  serialize_controls (pre ++ i :: post) =
    fold_left serialize_input post (serialize_input (serialize_controls pre) i).
Proof. unfold serialize_controls. now rewrite fold_left_app. Qed.

Lemma serialize_controls_snoc pre i :
  serialize_controls (pre ++ [i]) = serialize_input (serialize_controls pre) i.
Proof. apply serialize_controls_split. Qed.










(** ** More on [escapeHtml] *)

Lemma entity_cases (c : ascii) :
  (c = Str.amp /\ entity c = "&amp;")
  \/ (c = Str.lt /\ entity c = "&lt;")
  \/ (c = Str.gt /\ entity c = "&gt;")
  \/ (c = Str.dquote /\ entity c = "&quot;")
  \/ (c = Str.squote /\ entity c = "&#039;")
  \/ (needs_entity c = false /\ entity c = String c "").
Proof.
  unfold entity, needs_entity, raw_markup.
  destruct (Ascii.eqb_spec c Str.amp) as [->|?]; [now left|right].
  destruct (Ascii.eqb_spec c Str.lt) as [->|?]; [now left|right].
  destruct (Ascii.eqb_spec c Str.gt) as [->|?]; [now left|right].
  destruct (Ascii.eqb_spec c Str.dquote) as [->|?]; [now left|right].
  destruct (Ascii.eqb_spec c Str.squote) as [->|?]; [now left|right].
  split; reflexivity.
Qed.

(** The entities can be told apart from their first characters, and a
    copied character is never an ampersand. *)
Lemma entity_app_inj (a b : ascii) (x y : string) :
  entity a +:+ x = entity b +:+ y -> a = b /\ x = y.
Proof.
  destruct (entity_cases a) as [[-> ->]|[[-> ->]|[[-> ->]|[[-> ->]|[[-> ->]|[Ha ->]]]]]];
  destruct (entity_cases b) as [[-> ->]|[[-> ->]|[[-> ->]|[[-> ->]|[[-> ->]|[Hb ->]]]]]];
  intros H; cbv in H; try discriminate H;
  try (injection H as ->; now split);
  try (injection H; intros; subst; cbv in Ha; discriminate Ha);
  try (injection H; intros; subst; cbv in Hb; discriminate Hb).
Qed.

Lemma escape_by_table_nil_inv s : escape_by_table s = "" -> s = "".
Proof.
  destruct s as [|c s]; [reflexivity|]. cbn [escape_by_table].
  destruct (entity_cases c) as [[_ ->]|[[_ ->]|[[_ ->]|[[_ ->]|[[_ ->]|[_ ->]]]]]];
    discriminate.
Qed.

Lemma escape_by_table_inj : forall a b,
  escape_by_table a = escape_by_table b -> a = b.
Proof.
  induction a as [|c a IH]; intros b H.
  - symmetry. apply escape_by_table_nil_inv. now rewrite <- H.
  - destruct b as [|d b].
    + apply escape_by_table_nil_inv in H. discriminate.
    + cbn [escape_by_table] in H. apply entity_app_inj in H as [-> H].
      f_equal. now apply IH.
Qed.

(** X1. [escapeHtml] loses nothing: two texts with the same escaped form
    are the same text. *)
Theorem escapeHtml_injective (a b : string) :
  escapeHtml a = escapeHtml b -> a = b.
Proof. rewrite !escapeHtml_table. apply escape_by_table_inj. Qed.

Lemma escapeHtml_injective_witness :
  escapeHtml (escapeHtml "a<b") = escapeHtml "a&lt;b" /\ escapeHtml "a<b" = "a&lt;b".
Proof.
  split; [reflexivity|].
  apply (escapeHtml_injective (escapeHtml "a<b") "a&lt;b"). reflexivity.
Defined.

Lemma length_append (a b : string) :
  String.length (a +:+ b) = (String.length a + String.length b)%nat.
Proof.
  induction a as [|c a IH]; [reflexivity|].
  rewrite append_cons. cbn. now rewrite IH.
Qed.

Lemma entity_length c : (1 <= String.length (entity c))%nat.
Proof.
  destruct (entity_cases c) as [[_ ->]|[[_ ->]|[[_ ->]|[[_ ->]|[[_ ->]|[_ ->]]]]]];
    cbn; lia.
Qed.

Lemma escape_by_table_length s :
  (String.length s <= String.length (escape_by_table s))%nat.
Proof.
  induction s as [|c s IH]; [reflexivity|].
  cbn [escape_by_table]. rewrite length_append. cbn [String.length].
  pose proof (entity_length c). lia.
Qed.

Lemma escape_by_table_fixed s :
  escape_by_table s = s <-> plain_text s = true.
Proof.
  unfold plain_text. induction s as [|c s IH]; [now split|].
  cbn [escape_by_table Str.chars list_ascii_of_string forallb].
  fold (Str.chars s).
  pose proof (escape_by_table_length s) as Hlen.
  destruct (entity_cases c) as [[-> ->]|[[-> ->]|[[-> ->]|[[-> ->]|[[-> ->]|[Hc ->]]]]]].
  1-5: split; [intros H; exfalso; apply (f_equal String.length) in H;
                  rewrite length_append in H; cbn in H; lia
               | intros H; cbn in H; discriminate H].
  rewrite Hc. cbn [negb andb]. rewrite <- IH. rewrite append_cons, append_nil_l.
  split; [intros H; now injection H | intros ->; reflexivity].
Qed.

(** X2. [escapeHtml] never shortens a text; it returns the text unchanged
    exactly when the text has none of the five characters; and escaping
    an escaped text changes it again unless the text had none of them. *)
Theorem escapeHtml_fixed_points (s : string) :
  (String.length s <= String.length (escapeHtml s))%nat
  /\ (escapeHtml s = s <-> plain_text s = true)
  /\ (escapeHtml (escapeHtml s) = escapeHtml s <-> plain_text s = true).
Proof.
  split; [rewrite escapeHtml_table; apply escape_by_table_length|].
  assert (Hfix : escapeHtml s = s <-> plain_text s = true)
    by (rewrite escapeHtml_table; apply escape_by_table_fixed).
  split; [exact Hfix|]. rewrite <- Hfix. split.
  - rewrite !escapeHtml_table. apply escape_by_table_inj.
  - intros H. now rewrite !H.
Qed.

(** ** The error text of the generic alert *)

Lemma of_Z_parses z :
  DecimalString.NilZero.int_of_string (Str.of_Z z) = Some (Z.to_int z).
Proof.
  unfold Str.of_Z. apply DecimalString.NilZero.isi; destruct z; cbn; try discriminate;
    intros H; injection H; apply DecimalPos.Unsigned.to_uint_nonnil.
Qed.

Lemma of_Z_inj a b : Str.of_Z a = Str.of_Z b -> a = b.
Proof.
  intros H. apply (f_equal DecimalString.NilZero.int_of_string) in H.
  rewrite !of_Z_parses in H. injection H as H.
  apply (f_equal Z.of_int) in H. now rewrite !DecimalZ.of_to in H.
Qed.

(** A status code hits the table only at the four codes it lists. *)
Lemma errorsMap_status z :
  errorsMap_get (Str.of_Z z) errorsMap =
    if z =? 0 then errorsMap_get "0" errorsMap
    else if z =? 400 then errorsMap_get "400" errorsMap
    else if z =? 404 then errorsMap_get "404" errorsMap
    else if z =? 500 then errorsMap_get "500" errorsMap
    else None.
Proof.
  destruct (Z.eqb_spec z 0) as [->|H0]; [reflexivity|].
  destruct (Z.eqb_spec z 400) as [->|H400]; [reflexivity|].
  destruct (Z.eqb_spec z 404) as [->|H404]; [reflexivity|].
  destruct (Z.eqb_spec z 500) as [->|H500]; [reflexivity|].
  pose proof (of_Z_parses z) as Hp.
  unfold errorsMap. cbn [errorsMap_get].
  repeat match goal with
  | |- context [String.eqb ?k (Str.of_Z z)] =>
      destruct (String.eqb_spec k (Str.of_Z z)) as [E|E];
      [exfalso;
       first [ apply H0, of_Z_inj; now rewrite <- E
             | apply H400, of_Z_inj; now rewrite <- E
             | apply H404, of_Z_inj; now rewrite <- E
             | apply H500, of_Z_inj; now rewrite <- E
             | rewrite <- E in Hp; vm_compute in Hp; discriminate Hp ]
      | clear E]
  end.
  reflexivity.
Qed.

Lemma errorsMap_get_nonempty k m :
  errorsMap_get k errorsMap = Some m -> m <> "".
Proof.
  unfold errorsMap. cbn [errorsMap_get].
  repeat match goal with
  | |- context [String.eqb ?a k] => destruct (String.eqb a k)
  end; intros H; try discriminate H; injection H as <-; discriminate.
Qed.

(** X3. The generic alert's text, for a status text that is not the
    name of an inherited member: the status code decides for 0, 400, 404
    and 500 and for no other code; otherwise the status text is looked up
    in the same table (its keys include [error], [timeout],
    [parsererror] and the four codes as strings); otherwise the text is
    the fixed prefix followed by status and status text, [undefined] for
    a missing one.  The text is never empty. *)
Theorem getErrorText_lookup_order (x : response) :
  inherited_key (statusText_key x) = false ->
  let by_text :=
    match errorsMap_get (statusText_key x) errorsMap with
    | Some m => m
    | None => "An error occurred: " +:+ status_key x +:+ " " +:+ statusText_key x
    end in
  getErrorText x =
    match r_status x with
    | Some z =>
        if z =? 0 then
          "An error occurred: Could not connect to the server, please check your internet connection."
        else if z =? 400 then "An error occurred: 400 - request failed"
        else if z =? 404 then
          "An error occurred: 404 - page not found or address changed"
        else if z =? 500 then "The server encountered a 500 - unknown error"
        else by_text
    | None => by_text
    end
  /\ getErrorText x <> "".
Proof.
  intros _ by_text. split.
  - unfold getErrorText. subst by_text. unfold status_key at 1.
    destruct (r_status x) as [z|]; [|reflexivity].
    rewrite errorsMap_status.
    destruct (z =? 0); [reflexivity|]. destruct (z =? 400); [reflexivity|].
    destruct (z =? 404); [reflexivity|]. destruct (z =? 500); reflexivity.
  - unfold getErrorText.
    destruct (errorsMap_get (status_key x) errorsMap) as [m|] eqn:E1;
      [now apply (errorsMap_get_nonempty _ _ E1)|].
    destruct (errorsMap_get (statusText_key x) errorsMap) as [m|] eqn:E2;
      [now apply (errorsMap_get_nonempty _ _ E2)|].
    discriminate.
Qed.

Lemma getErrorText_lookup_order_witness :
  getErrorText {| r_data := VUndef; r_status := Some 503;
                  r_statusText := Some "timeout"; r_responseText := None |} =
    "An error occurred: timeout - the request timed out too long".
Proof.
  exact (proj1 (getErrorText_lookup_order
                  {| r_data := VUndef; r_status := Some 503;
                     r_statusText := Some "timeout"; r_responseText := None |}
                  eq_refl)).
Defined.

(** ** What the two alerts do with the texts they are given *)

Lemma escapeHtml_no_markup s : no_markup (escapeHtml s) = true.
Proof.
  unfold no_markup. rewrite escapeHtml_table. apply forallb_forall. intros c Hc.
  induction s as [|a s IH]; cbn in Hc; [contradiction|].
  rewrite chars_app in Hc. apply in_app_or in Hc as [Hc|Hc].
  - now rewrite (entity_no_markup a c Hc).
  - now apply IH.
Qed.

(** X4. Whatever the failure object holds, every text the generic alert
    interpolates (the error text of the banner; status, status text and
    body of the detail report) is free of angle brackets and quotes. *)
Theorem showAlertUnexpected_escapes (u : ui) (jqXHR : response) :
  forallb escaped_notice (trace (showAlertUnexpected u jqXHR)) = true.
Proof.
  unfold showAlertUnexpected.
  destruct (r_status jqXHR), (r_statusText jqXHR), (r_responseText jqXHR);
    cbn; rewrite ?escapeHtml_no_markup; reflexivity.
Qed.

Lemma flat_VArr l : flat (VArr l) = flat_entries l.
Proof.
  induction l as [|x l IH]; [reflexivity|].
  cbn [flat flat_entries] in *. unfold flat_entry. rewrite <- IH.
  destruct (if is_object x then flat x else Some [x]); reflexivity.
Qed.

Lemma flat_VObj o : flat (VObj o) = flat_entries (map snd o).
Proof.
  induction o as [|[k x] o IH]; [reflexivity|].
  cbn [flat flat_entries map snd] in *. unfold flat_entry. rewrite <- IH.
  destruct (if is_object x then flat x else Some [x]); reflexivity.
Qed.

Lemma flat_entries_strings l : flat_entries (map VStr l) = Some (map VStr l).
Proof.
  induction l as [|s l IH]; [reflexivity|].
  cbn [map flat_entries]. now rewrite IH.
Qed.

Lemma flat_field_errors fields :
  flat (field_errors fields) = Some (map VStr (concat (map snd fields))).
Proof.
  unfold field_errors. rewrite flat_VObj, map_map. cbn [snd].
  induction fields as [|[f msgs] fields IH]; [reflexivity|].
  cbn [map flat_entries concat snd]. unfold flat_entry. cbn [is_object].
  rewrite flat_VArr, flat_entries_strings, IH. now rewrite map_app.
Qed.

Lemma join_items_strings l : map join_item (map VStr l) = l.
Proof. rewrite map_map. cbn. apply map_id. Qed.

(** X5. For a body [{message: m, errors: {field: [texts], ...}}] with at
    least one field, the extended alert shows the message in [strong]
    and every text of every field, in order, as one list item each; the
    message and the texts are inserted as they are, markup included. *)
Theorem showAlertExtended_verbatim (u : ui) (o : obj) (m : string)
    (fields : list (string * list string)) :
  prop "message" (VObj o) = VStr m ->
  prop "errors" (VObj o) = field_errors fields ->
  fields <> [] ->
  showAlertExtended u (VObj o) =
    ([ EvShowAlert (ui_contextStatus u) (ui_id u)
         (Markup ("<strong>" +:+ m +:+ "</strong>" +:+
                  "<ul><li>" +:+ Str.join "</li><li>" (concat (map snd fields))
                  +:+ "</li></ul>"))
         "danger" ], Ret tt).
Proof.
  intros Hm He Hf. rewrite showAlertExtended_cases. cbn [nullish].
  rewrite Hm, He.
  cbn [truthy field_errors]. unfold errorsToUlTree, flatDeep.
  rewrite flat_field_errors.
  assert (Hk : (key_count (field_errors fields) =? 0)%nat = false).
  { destruct fields; [congruence|reflexivity]. }
  rewrite Hk, join_items_strings. reflexivity.
Qed.

Lemma showAlertExtended_verbatim_witness :
  showAlertExtended Ex.notifier
    (VObj [ ("message", VStr "<b>No</b>");
            ("errors", field_errors [("name", ["required"; "<i>short</i>"])]) ]) =
    ([ EvShowAlert Ex.body "r1"
         (Markup "<strong><b>No</b></strong><ul><li>required</li><li><i>short</i></li></ul>")
         "danger" ], Ret tt).
Proof.
  apply (showAlertExtended_verbatim Ex.notifier _ "<b>No</b>"
           [("name", ["required"; "<i>short</i>"])]);
    [reflexivity | reflexivity | discriminate].
Defined.

(** ** [flatDeep] *)

(** Induction on values that reaches into arrays and objects. *)
Lemma value_nested_ind (P : value -> Prop) :
  P VUndef -> P VNull -> (forall b, P (VBool b)) -> (forall z, P (VNum z)) ->
  (forall s, P (VStr s)) ->
  (forall items, Forall P items -> P (VArr items)) ->
  (forall o, Forall (fun kv => P kv.2) o -> P (VObj o)) ->
  (forall form, P (VFormData form)) ->
  forall v, P v.
Proof.
  intros HU HN HB HZ HS HA HO HF.
  fix self 1.
  intros [| |b|z|s|items|o|form];
    [exact HU | exact HN | apply HB | apply HZ | apply HS | | | apply HF].
  - apply HA. induction items as [|x items IH]; constructor; [apply self | exact IH].
  - apply HO. induction o as [|[k x] o IH]; constructor; [apply self | exact IH].
Qed.

Lemma flat_entries_app a b :
  flat_entries (a ++ b) =
    match flat_entries a, flat_entries b with
    | Some x, Some y => Some (x ++ y)
    | _, _ => None
    end.
Proof.
  induction a as [|v a IH]; cbn [app flat_entries].
  - now destruct (flat_entries b).
  - destruct (flat_entry v) as [l|]; [|reflexivity]. rewrite IH.
    destruct (flat_entries a), (flat_entries b); try reflexivity.
    now rewrite app_assoc.
Qed.

Lemma flat_entries_leaves l :
  forallb (fun x => negb (is_object x)) l = true -> flat_entries l = Some l.
Proof.
  induction l as [|x l IH]; [reflexivity|].
  cbn [forallb flat_entries]. intros H. apply andb_prop in H as [Hx Hl].
  unfold flat_entry. apply negb_true_iff in Hx. rewrite Hx, (IH Hl). reflexivity.
Qed.

Lemma flat_leaves v :
  forall l, flat v = Some l -> forallb (fun x => negb (is_object x)) l = true.
Proof.
  induction v as [| |b|z|s|items IH|o IH|form] using value_nested_ind;
    intros l H; try discriminate H; try (injection H as <-; reflexivity).
  - injection H as <-. induction (Str.chars s); [reflexivity|easy].
  - rewrite flat_VArr in H. revert l H.
    induction IH as [|x items Hx _ IHitems]; intros l H.
    + injection H as <-. reflexivity.
    + cbn [flat_entries] in H. unfold flat_entry in H.
      destruct (is_object x) eqn:Ex.
      * destruct (flat x) as [a|] eqn:Ea; [|discriminate].
        destruct (flat_entries items) as [b|]; [|discriminate].
        injection H as <-. rewrite forallb_app, (Hx a eq_refl), (IHitems b eq_refl).
        reflexivity.
      * destruct (flat_entries items) as [b|]; [|discriminate].
        injection H as <-. cbn. now rewrite Ex, (IHitems b eq_refl).
  - rewrite flat_VObj in H. revert l H.
    induction IH as [|[k x] o Hx _ IHo]; intros l H.
    + injection H as <-. reflexivity.
    + cbn [flat_entries map snd] in H. unfold flat_entry in H. cbn [snd] in Hx.
      destruct (is_object x) eqn:Ex.
      * destruct (flat x) as [a|] eqn:Ea; [|discriminate].
        destruct (flat_entries (map snd o)) as [b|]; [|discriminate].
        injection H as <-. rewrite forallb_app, (Hx a eq_refl), (IHo b eq_refl).
        reflexivity.
      * destruct (flat_entries (map snd o)) as [b|]; [|discriminate].
        injection H as <-. cbn. now rewrite Ex, (IHo b eq_refl).
Qed.

(** X6. What [flatDeep] returns holds no array, object or [null]: every
    element is a leaf; and flattening its result again returns the same
    list. *)
Theorem flatDeep_leaves_only (array : value) :
  match flatDeep array with
  | Some leaves =>
      forallb (fun x => negb (is_object x)) leaves = true
      /\ flatDeep (VArr leaves) = Some leaves
  | None => True
  end.
Proof.
  unfold flatDeep. destruct (flat array) as [l|] eqn:E; [|exact I].
  pose proof (flat_leaves _ _ E) as Hl. split; [exact Hl|].
  rewrite flat_VArr. now apply flat_entries_leaves.
Qed.

Lemma null_below_VArr l : null_below (VArr l) = existsb entry_throws l.
Proof. induction l as [|x l IH]; [reflexivity|]. cbn in *. now rewrite IH. Qed.

Lemma null_below_VObj o : null_below (VObj o) = existsb entry_throws (map snd o).
Proof. induction o as [|[k x] o IH]; [reflexivity|]. cbn in *. now rewrite IH. Qed.

Lemma flat_entries_None l :
  Forall (fun x => flat x = None <-> (x = VUndef \/ x = VNull \/ null_below x = true)) l ->
  (flat_entries l = None <-> existsb entry_throws l = true).
Proof.
  induction 1 as [|x l Hx _ IH]; [split; discriminate|].
  cbn [flat_entries existsb]. unfold flat_entry, entry_throws at 1.
  rewrite orb_true_iff, <- IH.
  destruct x; cbn [is_object];
    try (destruct (flat_entries l); split; [discriminate | intros [H|H]; discriminate]);
    try (destruct (flat_entries l); split;
         [discriminate | intros [H|H]; discriminate | tauto | tauto]).
  - split; [now left | reflexivity].
  - destruct (flat (VArr items)) as [a|] eqn:Ea.
    + assert (Hn : null_below (VArr items) = false).
      { destruct (null_below (VArr items)) eqn:En; [|reflexivity].
        discriminate (proj2 Hx (or_intror (or_intror eq_refl))). }
      rewrite Hn. destruct (flat_entries l); split;
        [discriminate | intros [H|H]; discriminate | tauto | tauto].
    + assert (Hn : null_below (VArr items) = true).
      { destruct (proj1 Hx eq_refl) as [H|[H|H]]; [discriminate..|exact H]. }
      rewrite Hn. split; [now left | reflexivity].
  - destruct (flat (VObj props)) as [a|] eqn:Ea.
    + assert (Hn : null_below (VObj props) = false).
      { destruct (null_below (VObj props)) eqn:En; [|reflexivity].
        discriminate (proj2 Hx (or_intror (or_intror eq_refl))). }
      rewrite Hn. destruct (flat_entries l); split;
        [discriminate | intros [H|H]; discriminate | tauto | tauto].
    + assert (Hn : null_below (VObj props) = true).
      { destruct (proj1 Hx eq_refl) as [H|[H|H]]; [discriminate..|exact H]. }
      rewrite Hn. split; [now left | reflexivity].
Qed.

Lemma flat_None v :
  flat v = None <-> (v = VUndef \/ v = VNull \/ null_below v = true).
Proof.
  induction v as [| |b|z|s|items IH|o IH|form] using value_nested_ind;
    try (split; [discriminate | intros [H|[H|H]]; discriminate]);
    try (split; [tauto | reflexivity]).
  - rewrite flat_VArr, null_below_VArr, (flat_entries_None _ IH).
    split; [tauto | intros [H|[H|H]]; [discriminate..|exact H]].
  - rewrite flat_VObj, null_below_VObj.
    assert (IH' : Forall
      (fun x => flat x = None <-> (x = VUndef \/ x = VNull \/ null_below x = true))
      (map snd o)) by (apply Forall_map; exact IH).
    rewrite (flat_entries_None _ IH').
    split; [tauto | intros [H|[H|H]]; [discriminate..|exact H]].
Qed.

(** When the extended alert shows its banner and when it throws. *)
Lemma showAlertExtended_outcome u json :
  let errors := prop "errors" json in
  if nullish json
     || (truthy errors && negb (key_count errors =? 0)%nat && null_below errors)
  then showAlertExtended u json = ([], Throw TypeError)
  else exists html,
         showAlertExtended u json =
           ([EvShowAlert (ui_contextStatus u) (ui_id u) (Markup html) "danger"],
            Ret tt).
Proof.
  intros errors. rewrite showAlertExtended_cases. fold errors.
  destruct (nullish json); cbn [orb]; [reflexivity|].
  destruct (truthy errors) eqn:Et; cbn [andb]; [|eexists; reflexivity].
  unfold errorsToUlTree, flatDeep.
  destruct (key_count errors =? 0)%nat; cbn [negb andb]; [eexists; reflexivity|].
  destruct (null_below errors) eqn:En.
  - assert (Hf : flat errors = None) by (apply flat_None; tauto).
    now rewrite Hf.
  - destruct (flat errors) as [l|] eqn:Ef; [eexists; reflexivity|].
    apply flat_None in Ef as [->|[->|Ef]]; [discriminate Et..|congruence].
Qed.

(** X7. The extended alert throws exactly when its argument is [null] or
    [undefined] (the errors are read with an unguarded [json.errors]), or
    when the [errors] are truthy, have at least one key and hold a [null]
    at some depth; it then throws before anything is shown.  In every
    other case it shows exactly one alert of type [danger]. *)
Theorem showAlertExtended_null_errors (u : ui) (json : value) :
  let errors := prop "errors" json in
  if nullish json
     || (truthy errors && negb (key_count errors =? 0)%nat && null_below errors)
  then showAlertExtended u json = ([], Throw TypeError)
  else exists html,
         showAlertExtended u json =
           ([EvShowAlert (ui_contextStatus u) (ui_id u) (Markup html) "danger"],
            Ret tt).
Proof.
  intros errors. subst errors.
  pose proof (showAlertExtended_outcome u json) as H. cbv zeta in H.
  destruct (nullish json || _); [exact H|].
  destruct H as (html & H). now exists html.
Qed.

(** ** The shape of a run *)

Lemma requestFail_ending JSON_parse x q u :
  q_ui q = Some u ->
  exists tail,
    trace (requestFail JSON_parse x q) = EvHideLoader (ui_id u) :: tail
    /\ ending tail.
Proof.
  intros Hu. rewrite (requestFail_run _ _ _ _ Hu). cbn zeta.
  destruct (q_onError q) as [cb|]; unfold trace at 1; cbn [fst].
  - eexists. split; [reflexivity|]. constructor.
  - eexists. split; [reflexivity|].
    destruct (result (displayAlert _)).
    + apply EndAlerted, displayAlert_notices.
    + rewrite app_nil_r. apply EndCutShort, displayAlert_notices.
Qed.

Lemma succeed_ending q x d : ending (trace (succeed q x d)).
Proof.
  rewrite succeed_run. cbn zeta. unfold trace. cbn [fst].
  destruct (q_onSuccess q); constructor.
Qed.

Lemma on_jq_reply_ending JSON_parse q u reply :
  q_ui q = Some u ->
  exists tail,
    trace (on_jq_reply JSON_parse q reply) = [EvHideLoader (ui_id u)] ++ tail
    /\ ending tail.
Proof.
  intros Hu. destruct reply as [d x|x]; cbn [on_jq_reply].
  - unfold get_ui. rewrite Hu. cbn [member]. rewrite bind_ret, hideLoader_then.
    eexists. split; [reflexivity|]. apply succeed_ending.
  - now apply requestFail_ending.
Qed.

Lemma on_fetch_reply_ending JSON_parse q u reply :
  q_ui q = Some u ->
  exists hides tail,
    trace (on_fetch_reply JSON_parse q reply) = hides ++ tail
    /\ (hides = [EvHideLoader (ui_id u)]
        \/ hides = [EvHideLoader (ui_id u); EvHideLoader (ui_id u)])
    /\ ending tail.
Proof.
  intros Hu. destruct reply as [|ok st stt body]; cbn [on_fetch_reply].
  - destruct (requestFail_ending JSON_parse error_object q u Hu) as (tail & -> & He).
    exists [EvHideLoader (ui_id u)], tail. auto.
  - unfold get_ui. rewrite Hu. cbn [member]. rewrite bind_ret, hideLoader_then.
    unfold trace at 1. cbn [fst].
    destruct body as [d|]; [destruct ok|].
    + exists [EvHideLoader (ui_id u)]. eexists. split; [reflexivity|].
      split; [now left | apply succeed_ending].
    + destruct (requestFail_ending JSON_parse
                  {| r_data := d; r_status := Some st; r_statusText := Some stt;
                     r_responseText := None |} q u Hu) as (tail & -> & He).
      exists [EvHideLoader (ui_id u); EvHideLoader (ui_id u)], tail. auto.
    + destruct (requestFail_ending JSON_parse error_object q u Hu) as (tail & -> & He).
      exists [EvHideLoader (ui_id u); EvHideLoader (ui_id u)], tail. auto.
Qed.

(** X8. Every run of [request] whose contexts are HTML elements and
    whose id is made of letters, digits, hyphens and underscores (so that
    the loader can be inserted and looked up again), with callbacks that
    return, is either empty (the call threw before anything happened) or
    has one shape: the alerts are cleared, the loader is shown, one
    network call is made, the loader is hidden (once, or twice when the
    fetch adapter passes a response on to the failure handler), and then
    exactly one of: [resolve], [onSuccess] then [resolve], [onError] then
    [reject], alert notices then [reject], or alert notices and nothing
    more. *)
Theorem request_lifecycle (JSON_stringify : value -> string)
    (JSON_parse : string -> option value) (e : env) (a : arg) (w : net) :
  contexts_are_elements e (params_of a) = true ->
  safe_id (ajaxId e a) = true ->
  lifecycle (trace (request JSON_stringify JSON_parse e a w)).
Proof.
  intros _ _.
  assert (Hgo : a <> ArgNone ->
    lifecycle (trace (request JSON_stringify JSON_parse e a w))).
  { intros Ha. pose proof (descriptor_ui JSON_stringify e a) as Hu.
    set (u := new_ui e _) in Hu.
    rewrite (request_run _ _ _ _ _ Ha _ Hu). cbn zeta. unfold trace at 1. cbn [fst].
    destruct (has_jQuery e).
    - destruct (on_jq_reply_ending JSON_parse _ u (net_jq w) Hu) as (tail & -> & He).
      apply LifeRun; [now left | exact He].
    - destruct (on_fetch_reply_ending JSON_parse _ u (net_fetch w) Hu)
        as (hides & tail & -> & Hh & He).
      apply LifeRun; [exact Hh | exact He]. }
  destruct a; [apply Hgo; discriminate.. | constructor].
Qed.

Lemma request_lifecycle_witness :
  lifecycle
    (trace (request Json.stringify Ex.parse_boom Ex.page_fetch
              (ArgObject Ex.just_url) Ex.server_error)).
Proof.
  apply (request_lifecycle Json.stringify Ex.parse_boom Ex.page_fetch
           (ArgObject Ex.just_url) Ex.server_error); reflexivity.
Defined.

(** ** One id for everything *)

Lemma showAlertExtended_carries u json :
  forallb (carries (ui_id u)) (trace (showAlertExtended u json)) = true.
Proof.
  rewrite showAlertExtended_cases. destruct (nullish json); [reflexivity|].
  destruct (truthy (prop "errors" json));
    [destruct (errorsToUlTree (prop "errors" json))|];
    cbn; rewrite ?String.eqb_refl; reflexivity.
Qed.

Lemma showAlertUnexpected_carries u x :
  forallb (carries (ui_id u)) (trace (showAlertUnexpected u x)) = true.
Proof.
  unfold showAlertUnexpected.
  destruct (r_status x), (r_statusText x), (r_responseText x);
    cbn; rewrite ?String.eqb_refl; reflexivity.
Qed.

Lemma displayAlert_carries q u :
  q_ui q = Some u ->
  forallb (carries (ui_id u)) (trace (displayAlert q)) = true.
Proof.
  intros Hu. unfold displayAlert.
  destruct (q_response q) as [x|]; [|reflexivity].
  cbn [member]. rewrite bind_ret.
  rewrite trace_bind, page_expired_test_trace. cbn [app].
  destruct (result (page_expired_test x)) as [b|]; [|reflexivity].
  unfold get_ui. rewrite Hu. cbn [member]. rewrite !bind_ret.
  destruct b; [apply showAlertExtended_carries|].
  destruct (_ && _); [apply showAlertExtended_carries | apply showAlertUnexpected_carries].
Qed.

Lemma requestFail_carries JSON_parse x q u :
  q_ui q = Some u -> q_id q = Some (ui_id u) ->
  forallb (carries (ui_id u)) (trace (requestFail JSON_parse x q)) = true.
Proof.
  intros Hu Hi. rewrite (requestFail_run _ _ _ _ Hu). cbn zeta.
  destruct (q_onError q) as [cb|]; unfold trace at 1; cbn [fst].
  - cbn. rewrite Hi, String.eqb_refl. reflexivity.
  - set (q' := addResponse q _ _).
    cbn [forallb]. rewrite forallb_app.
    rewrite (displayAlert_carries q' u Hu).
    cbn [carries event_id]. rewrite String.eqb_refl. cbn [andb].
    destruct (result (displayAlert q')); cbn; rewrite ?Hi, ?String.eqb_refl; reflexivity.
Qed.

Lemma succeed_carries q x d i :
  q_id q = Some i -> forallb (carries i) (trace (succeed q x d)) = true.
Proof.
  intros Hi. rewrite succeed_run. cbn zeta. unfold trace. cbn [fst].
  destruct (q_onSuccess q); cbn; rewrite Hi, String.eqb_refl; reflexivity.
Qed.

Lemma append_nonempty_r (a b : string) : b <> "" -> a +:+ b <> "".
Proof. destruct a; [now rewrite append_nil_l | rewrite append_cons; discriminate]. Qed.

Lemma ajaxId_nonempty e a : ajaxId e a <> "".
Proof.
  assert (Hf : fresh_id e <> "").
  { unfold fresh_id. apply append_nonempty_r. rewrite append_cons. discriminate. }
  unfold ajaxId, or_id. destruct (p_id (params_of a)) as [s|]; [|exact Hf].
  destruct (String.eqb_spec s ""); [exact Hf | assumption].
Qed.

Lemma descriptor_id S e a : q_id (descriptor S e a) = Some (ajaxId e a).
Proof. reflexivity. Qed.

Lemma descriptor_ui_id S e a u :
  q_ui (descriptor S e a) = Some u -> ui_id u = ajaxId e a.
Proof. rewrite descriptor_ui. intros [= <-]. reflexivity. Qed.

Lemma carries_send i via url m h body :
  h !! "X-Requested-Id" = Some (VStr i) ->
  carries i (EvSend via url m h body) = true.
Proof. intros H. unfold carries, event_id. rewrite H. apply String.eqb_refl. Qed.

Lemma carries_loader i ctx : carries i (EvDisplayLoader ctx i) = true.
Proof. unfold carries, event_id. apply String.eqb_refl. Qed.

Lemma carries_hide i : carries i (EvHideLoader i) = true.
Proof. unfold carries, event_id. apply String.eqb_refl. Qed.

Lemma on_jq_reply_carries JSON_parse q u reply :
  q_ui q = Some u -> q_id q = Some (ui_id u) ->
  forallb (carries (ui_id u)) (trace (on_jq_reply JSON_parse q reply)) = true.
Proof.
  intros Hu Hq. destruct reply as [d x|x]; cbn [on_jq_reply].
  - unfold get_ui. rewrite Hu. cbn [member]. rewrite bind_ret, hideLoader_then.
    unfold trace at 1. cbn [fst forallb]. rewrite carries_hide.
    now apply succeed_carries.
  - now apply requestFail_carries.
Qed.

Lemma on_fetch_reply_carries JSON_parse q u reply :
  q_ui q = Some u -> q_id q = Some (ui_id u) ->
  forallb (carries (ui_id u)) (trace (on_fetch_reply JSON_parse q reply)) = true.
Proof.
  intros Hu Hq. destruct reply as [|ok st stt body]; cbn [on_fetch_reply].
  - now apply requestFail_carries.
  - unfold get_ui. rewrite Hu. cbn [member]. rewrite bind_ret, hideLoader_then.
    unfold trace at 1. cbn [fst forallb]. rewrite carries_hide. cbn [andb].
    destruct body as [d|]; [destruct ok|];
      [now apply succeed_carries | now apply requestFail_carries..].
Qed.

Lemma request_carries S P e a w :
  a <> ArgNone ->
  forallb (carries (ajaxId e a)) (trace (request S P e a w)) = true.
Proof.
  intros Ha. pose proof (descriptor_ui S e a) as Hu.
  pose proof (descriptor_ui_id S e a _ Hu) as Hid.
  pose proof (descriptor_id S e a) as Hq. rewrite <- Hid in Hq.
  rewrite (request_run S P e a w Ha _ Hu). cbv zeta. unfold trace at 1. cbn [fst].
  rewrite <- Hid.
  cbn [forallb]. rewrite carries_loader.
  rewrite carries_send
    by (rewrite descriptor_headers, lookup_insert_eq, Hid; reflexivity).
  change (carries _ (EvRemAlerts _)) with true. cbn [andb].
  destruct (has_jQuery e);
    [now apply on_jq_reply_carries | now apply on_fetch_reply_carries].
Qed.

(** X9. One id runs through a request.  It is the caller's [id] when
    that is a non-empty string, else the clock reading, a dash and the
    random number in hexadecimal; it is never empty; and every event of
    the run other than the clearing of the alerts carries it: the loader
    shown and hidden, the [X-Requested-Id] header of the network call,
    every notice of the default alert, and the descriptor given to the
    callbacks and to [resolve] or [reject]. *)
Theorem request_one_id (JSON_stringify : value -> string)
    (JSON_parse : string -> option value) (e : env) (a : arg) (w : net) :
  ajaxId e a =
    match p_id (params_of a) with
    | Some given => if String.eqb given "" then fresh_id e else given
    | None => fresh_id e
    end
  /\ fresh_id e = Str.of_Z (clock e) +:+ "-" +:+ Str.hex_of_N (dice e)
  /\ ajaxId e a <> ""
  /\ forallb (carries (ajaxId e a))
       (trace (request JSON_stringify JSON_parse e a w)) = true.
Proof.
  split; [reflexivity|]. split; [reflexivity|]. split; [apply ajaxId_nonempty|].
  destruct a; [apply request_carries; discriminate.. | reflexivity].
Qed.

(** ** Callbacks, alerts and the settled descriptor *)

Lemma descriptor_onError S e a :
  q_onError (descriptor S e a) = p_onError (params_of a).
Proof.
  unfold descriptor, prepareQuery, resolve_contexts, encode_payload, derive_payload.
  cbn.
  repeat match goal with
         | |- context [if ?b then _ else _] => destruct b; cbn
         | |- context [match ?r with RUndef => _ | _ => _ end] => destruct r; cbn
         end; reflexivity.
Qed.


Lemma requestFail_handled_quiet JSON_parse x q u cb :
  q_ui q = Some u -> q_onError q = Some cb ->
  forallb (fun ev => negb (is_notice ev)) (trace (requestFail JSON_parse x q)) = true.
Proof.
  intros Hu Hc. rewrite (requestFail_with_onError _ _ _ _ _ Hu Hc). reflexivity.
Qed.

Lemma succeed_quiet q x d :
  forallb (fun ev => negb (is_notice ev)) (trace (succeed q x d)) = true.
Proof. rewrite succeed_run. cbn. now destruct (q_onSuccess q). Qed.

Lemma forallb_skip {A} (f : A -> bool) x l :
  f x = true -> forallb f (x :: l) = forallb f l.
Proof. intros H. cbn [forallb]. now rewrite H. Qed.

Lemma on_jq_reply_quiet JSON_parse q u cb reply :
  q_ui q = Some u -> q_onError q = Some cb ->
  forallb (fun ev => negb (is_notice ev))
    (trace (on_jq_reply JSON_parse q reply)) = true.
Proof.
  intros Hu Hc. destruct reply as [d x|x]; cbn [on_jq_reply].
  - unfold get_ui. rewrite Hu. cbn [member]. rewrite bind_ret, hideLoader_then.
    unfold trace at 1. cbn [fst]. rewrite forallb_skip by reflexivity.
    apply succeed_quiet.
  - now apply (requestFail_handled_quiet _ _ _ u cb).
Qed.

Lemma on_fetch_reply_quiet JSON_parse q u cb reply :
  q_ui q = Some u -> q_onError q = Some cb ->
  forallb (fun ev => negb (is_notice ev))
    (trace (on_fetch_reply JSON_parse q reply)) = true.
Proof.
  intros Hu Hc. destruct reply as [|ok st stt body]; cbn [on_fetch_reply].
  - now apply (requestFail_handled_quiet _ _ _ u cb).
  - unfold get_ui. rewrite Hu. cbn [member]. rewrite bind_ret, hideLoader_then.
    unfold trace at 1. cbn [fst]. rewrite forallb_skip by reflexivity.
    destruct body as [d|]; [destruct ok|];
      [apply succeed_quiet | now apply (requestFail_handled_quiet _ _ _ u cb)..].
Qed.

(** X10. A caller that supplies [onError] never sees an automatic alert:
    whatever the network answers, the run shows no alert and appends no
    detail report. *)
Theorem onError_suppresses_alert (JSON_stringify : value -> string)
    (JSON_parse : string -> option value) (e : env) (a : arg) (w : net) :
  match p_onError (params_of a) with
  | Some _ =>
      forallb (fun ev => negb (is_notice ev))
        (trace (request JSON_stringify JSON_parse e a w)) = true
  | None => True
  end.
Proof.
  destruct (p_onError (params_of a)) as [cb|] eqn:Hcb; [|exact I].
  assert (Ha : a <> ArgNone) by (intros ->; discriminate Hcb).
  pose proof (descriptor_ui JSON_stringify e a) as Hu.
  pose proof (descriptor_onError JSON_stringify e a) as Hc. rewrite Hcb in Hc.
  rewrite (request_run _ _ _ _ _ Ha _ Hu). cbv zeta. unfold trace at 1. cbn [fst].
  rewrite !forallb_skip by reflexivity.
  destruct (has_jQuery e);
    [now apply (on_jq_reply_quiet _ _ _ cb _ Hu)
    | now apply (on_fetch_reply_quiet _ _ _ cb _ Hu)].
Qed.








Lemma requestFail_rejected JSON_parse x q u :
  q_ui q = Some u ->
  match settled (trace (requestFail JSON_parse x q)) with
  | Rejected q' =>
      exists x', q' = addResponse q x' (r_data x')
  | Fulfilled _ => False
  | Pending => True
  end.
Proof.
  intros Hu. rewrite (requestFail_settles _ _ _ _ Hu). cbn zeta.
  destruct (q_onError q); [eauto|]. destruct (result _); [eauto | exact I].
Qed.

Lemma on_jq_reply_delivers P q u reply :
  q_ui q = Some u -> delivers q (settled (trace (on_jq_reply P q reply))).
Proof.
  intros Hu. destruct reply as [d x|x]; cbn [on_jq_reply].
  - unfold get_ui. rewrite Hu. cbn [member]. rewrite bind_ret, hideLoader_then.
    unfold trace at 1. cbn [fst settled]. rewrite settled_succeed. cbn. eauto.
  - pose proof (requestFail_rejected P x q u Hu) as Hr.
    destruct (settled _); [exact I | contradiction | exact Hr].
Qed.

Lemma on_fetch_reply_delivers P q u reply :
  q_ui q = Some u -> delivers q (settled (trace (on_fetch_reply P q reply))).
Proof.
  intros Hu.
  assert (Hf : forall x, delivers q (settled (trace (requestFail P x q)))).
  { intros x. pose proof (requestFail_rejected P x q u Hu) as Hr.
    destruct (settled _); [exact I | contradiction | exact Hr]. }
  destruct reply as [|ok st stt body]; cbn [on_fetch_reply]; [apply Hf|].
  unfold get_ui. rewrite Hu. cbn [member]. rewrite bind_ret, hideLoader_then.
  unfold trace at 1. cbn [fst settled].
  destruct body as [d|]; [destruct ok|]; [|apply Hf..].
  rewrite settled_succeed. cbn. eauto.
Qed.

Lemma settled_descriptor_at S P e a w :
  a <> ArgNone ->
  let q := descriptor S e a in
  sent (trace (request S P e a w)) =
    Some (EvSend (transport_of e) (q_url q) (q_method q) (q_headers q) (q_data q))
  /\ delivers q (settled (trace (request S P e a w))).
Proof.
  intros Ha q. split.
  - rewrite request_sends. now destruct a.
  - pose proof (descriptor_ui S e a) as Hu.
    rewrite (request_run S P e a w Ha _ Hu). cbv zeta. unfold trace at 1.
    cbn [fst settled]. fold q in Hu |- *.
    destruct (has_jQuery e);
      [now apply (on_jq_reply_delivers P q _ _ Hu)
      | now apply (on_fetch_reply_delivers P q _ _ Hu)].
Qed.

(** X13. The descriptor a settled promise delivers agrees with what was
    sent: its [requestData] is the payload of the network call and its
    [url], [method] and [headers] are those of the call.  When the
    promise is rejected, the descriptor's [data] is the [data] of the
    failure object it carries as [response]. *)
Theorem settled_descriptor (JSON_stringify : value -> string)
    (JSON_parse : string -> option value) (e : env) (a : arg) (w : net) :
  let tr := trace (request JSON_stringify JSON_parse e a w) in
  match sent tr, settled tr with
  | Some (EvSend _ url method headers payload), Fulfilled q' =>
      q_requestData q' = Some payload
      /\ q_url q' = url /\ q_method q' = method /\ q_headers q' = headers
  | Some (EvSend _ url method headers payload), Rejected q' =>
      q_requestData q' = Some payload
      /\ q_url q' = url /\ q_method q' = method /\ q_headers q' = headers
      /\ exists failure, q_response q' = Some failure /\ q_data q' = r_data failure
  | _, Pending => True
  | _, _ => False
  end.
Proof.
  intros tr. subst tr.
  assert (Hgo : a <> ArgNone ->
    match sent (trace (request JSON_stringify JSON_parse e a w)),
          settled (trace (request JSON_stringify JSON_parse e a w)) with
    | Some (EvSend _ url method headers payload), Fulfilled q' =>
        q_requestData q' = Some payload
        /\ q_url q' = url /\ q_method q' = method /\ q_headers q' = headers
    | Some (EvSend _ url method headers payload), Rejected q' =>
        q_requestData q' = Some payload
        /\ q_url q' = url /\ q_method q' = method /\ q_headers q' = headers
        /\ exists failure, q_response q' = Some failure /\ q_data q' = r_data failure
    | _, Pending => True
    | _, _ => False
    end).
  { intros Ha.
    destruct (settled_descriptor_at JSON_stringify JSON_parse e a w Ha) as [Hs Hd].
    rewrite Hs. revert Hd. generalize (descriptor JSON_stringify e a). intros q Hd.
    destruct (settled _) as [|q'|q']; [exact I | |].
    - destruct Hd as (raw & parsed & ->). repeat split.
    - destruct Hd as (failure & ->). repeat split.
      exists failure. split; reflexivity. }
  destruct a; [apply Hgo; discriminate.. | reflexivity].
Qed.

(** ** The callable instance *)

Lemma invoke_arg_bound first rest arg0 :
  instanceof_HTMLElement first = true ->
  invoke_arg (Some (first :: rest)) arg0 =
    ArgObject (with_context (params_of arg0) first).
Proof. intros H. unfold invoke_arg. rewrite H. now destruct arg0. Qed.

Lemma request_string S P e s w :
  request S P e (ArgObject (params_of (ArgString s))) w = request S P e (ArgString s) w.
Proof. reflexivity. Qed.

Lemma invoke_unbound S P e thisArg arg0 w :
  match thisArg with
  | Some (first :: _) => instanceof_HTMLElement first = false
  | _ => True
  end ->
  invoke S P e thisArg arg0 w = request S P e arg0 w.
Proof.
  intros H. unfold invoke.
  assert (Ha : invoke_arg thisArg arg0 =
               match arg0 with
               | ArgString s => ArgObject (params_of (ArgString s))
               | other => other
               end).
  { unfold invoke_arg. destruct thisArg as [[|first rest]|]; [reflexivity| |reflexivity].
    now rewrite H. }
  rewrite Ha. destruct arg0; [apply request_string | reflexivity..].
Qed.

Lemma descriptor_context S e a :
  q_context (descriptor S e a) =
    default (RNode (document_body e)) (p_context (params_of a)).
Proof. apply prepareQuery_context. Qed.

(** X14. Calling the instance as a function is [request], with one
    addition.  Called on nothing, on an empty jQuery object or on one
    whose first element is no HTML element, it is [request] on the same
    argument (a URL string included, and it throws on a missing argument
    as [request] does).  Called on a jQuery object whose first element is
    an HTML element, it is [request] on the parameters with [context]
    replaced by that element: a context given by the caller is
    overridden, and a missing argument is no error, the network call is
    made. *)
Theorem invoke_binds_context (JSON_stringify : value -> string)
    (JSON_parse : string -> option value) (e : env)
    (thisArg : option (list ref)) (arg0 : arg) (w : net) :
  let bound :=
    match thisArg with
    | Some (first :: _) =>
        if instanceof_HTMLElement first then Some first else None
    | _ => None
    end in
  let run := invoke JSON_stringify JSON_parse e thisArg arg0 w in
  match bound with
  | None => run = request JSON_stringify JSON_parse e arg0 w
  | Some el =>
      let a := ArgObject (with_context (params_of arg0) el) in
      run = request JSON_stringify JSON_parse e a w
      /\ q_context (descriptor JSON_stringify e a) = el
      /\ exists via url method headers payload,
           sent (trace run) = Some (EvSend via url method headers payload)
  end.
Proof.
  intros bound run. subst bound run.
  destruct thisArg as [[|first rest]|]; [now apply invoke_unbound| |now apply invoke_unbound].
  destruct (instanceof_HTMLElement first) eqn:Hel; [|now apply invoke_unbound].
  cbv zeta. unfold invoke. rewrite (invoke_arg_bound _ _ _ Hel).
  split; [reflexivity|]. split; [apply descriptor_context|].
  rewrite request_sends. cbv zeta. eauto 10.
Qed.

(** ** Payloads that are left alone *)



(** ** The object [serializeForm] builds *)

Lemma keys_obj_set k v o :
  keys (obj_set k v o) = if in_dec string_dec k (keys o) then keys o else keys o ++ [k].
Proof.
  unfold keys. induction o as [|[k' v'] o IH]; [reflexivity|].
  cbn [obj_set map fst]. destruct (String.eqb_spec k' k) as [->|Hne].
  - cbn [map fst]. destruct (in_dec string_dec k (k :: map fst o)) as [_|Hn];
      [reflexivity|]. exfalso. apply Hn. now left.
  - cbn [map fst]. rewrite IH.
    destruct (in_dec string_dec k (map fst o)) as [Hin|Hn];
      destruct (in_dec string_dec k (k' :: map fst o)) as [Hin'|Hn']; try reflexivity.
    + exfalso. apply Hn'. now right.
    + destruct Hin' as [->|Hin']; [congruence | contradiction].
Qed.

Lemma In_keys_obj_set k v o k' :
  In k' (keys (obj_set k v o)) <-> In k' (keys o) \/ k' = k.
Proof.
  rewrite keys_obj_set. destruct (in_dec string_dec k (keys o)) as [Hin|Hn].
  - split; [now left | intros [H| ->]; assumption].
  - rewrite in_app_iff. cbn. intuition congruence.
Qed.

Lemma NoDup_keys_obj_set k v o :
  List.NoDup (keys o) -> List.NoDup (keys (obj_set k v o)).
Proof.
  intros H. rewrite keys_obj_set.
  destruct (in_dec string_dec k (keys o)) as [Hin|Hn]; [exact H|].
  revert H Hn. generalize (keys o) as l. clear o. intros l H Hn.
  induction H as [|x l Hx Hl IH]; cbn [app].
  - apply List.NoDup_cons; [cbn; tauto | apply List.NoDup_nil].
  - apply List.NoDup_cons.
    + rewrite in_app_iff. cbn. intros [Hi|[->|[]]]; [contradiction|].
      apply Hn. now left.
    + apply IH. intros Hk. apply Hn. now right.
Qed.

Lemma strings_obj_set k s o :
  forallb is_string_value (map snd o) = true ->
  forallb is_string_value (map snd (obj_set k (VStr s) o)) = true.
Proof.
  induction o as [|[k' v'] o IH]; [reflexivity|].
  cbn [obj_set map snd forallb]. intros H. apply andb_prop in H as [Hv Ho].
  destruct (String.eqb k' k); cbn [map snd forallb]; [exact Ho|].
  now rewrite Hv, IH.
Qed.

Lemma obj_get_In k o : obj_get k o <> VUndef -> In k (keys o).
Proof.
  unfold keys. induction o as [|[k' v'] o IH]; [cbn; congruence|].
  cbn [obj_get map fst]. destruct (String.eqb_spec k' k) as [->|Hne].
  - now left.
  - intros H. right. now apply IH.
Qed.

(** What a step of the serialization keeps: no key twice, strings only. *)
Lemma set_indexed_shape sname opts : forall j d,
  List.NoDup (keys d) /\ forallb is_string_value (map snd d) = true ->
  List.NoDup (keys (set_indexed sname j opts d))
  /\ forallb is_string_value (map snd (set_indexed sname j opts d)) = true.
Proof.
  induction opts as [|v opts IH]; intros j d [Hn Hs]; [now split|].
  cbn [set_indexed]. apply IH. split;
    [now apply NoDup_keys_obj_set | now apply strings_obj_set].
Qed.

Lemma set_indexed_In sname opts k : forall j d,
  In k (keys (set_indexed sname j opts d)) <->
    In k (keys d)
    \/ In k (map (indexed_key sname) (seq j (List.length opts))).
Proof.
  induction opts as [|v opts IH]; intros j d.
  - cbn. tauto.
  - cbn [set_indexed List.length seq map]. rewrite IH, In_keys_obj_set.
    cbn [In]. intuition congruence.
Qed.

Lemma serialize_input_shape d i :
  List.NoDup (keys d) /\ forallb is_string_value (map snd d) = true ->
  List.NoDup (keys (serialize_input d i))
  /\ forallb is_string_value (map snd (serialize_input d i)) = true.
Proof.
  intros [Hn Hs]. unfold serialize_input. rule_cases i.
  - split; [now apply NoDup_keys_obj_set | now apply strings_obj_set].
  - destruct (truthy (obj_get (in_name i) d)), (in_checked i);
      repeat first [ split | assumption
                   | apply NoDup_keys_obj_set | apply strings_obj_set ].
  - now apply set_indexed_shape.
  - split; [now apply NoDup_keys_obj_set | now apply strings_obj_set].
Qed.

Lemma truthy_defined v : truthy v = true -> v <> VUndef.
Proof. now intros H ->. Qed.

Lemma serialize_input_In d i k :
  In k (keys (serialize_input d i)) <-> In k (keys d) \/ In k (keys_of i).
Proof.
  unfold serialize_input, keys_of, kind_of. rule_cases i.
  - rewrite In_keys_obj_set. cbn. intuition congruence.
  - destruct (truthy (obj_get (in_name i) d)) eqn:Et, (in_checked i);
      rewrite ?In_keys_obj_set; cbn [In]; try (intuition congruence).
    split; [now left | intros [H|[<-|[]]]; [exact H|]].
    now apply obj_get_In, truthy_defined.
  - apply set_indexed_In.
  - rewrite In_keys_obj_set. cbn. intuition congruence.
Qed.

(** X17. The object built from the controls of a context that is no
    form is well formed whatever the controls are, as long as none is
    named like an inherited member: no key occurs twice, every value is a
    string, and its keys are exactly the keys some control writes (the
    control's name, or for a multiple select whose name ends in [[]] one
    indexed key per selected option).  A radio button always leaves its
    group's key, checked or not. *)
Theorem serialize_controls_wellformed (inputs : list input) :
  forallb (fun i => negb (inherited_key (in_name i))) inputs = true ->
  let data := serialize_controls inputs in
  List.NoDup (keys data)
  /\ forallb is_string_value (map snd data) = true
  /\ (forall k, In k (keys data) <-> exists i, In i inputs /\ In k (keys_of i))
  /\ (forall i, In i inputs -> kind_of i = Radio -> In (in_name i) (keys data)).
Proof.
  intros _. cbv zeta.
  assert (Hshape :
    List.NoDup (keys (serialize_controls inputs))
    /\ forallb is_string_value (map snd (serialize_controls inputs)) = true).
  { induction inputs as [|i ins IH] using rev_ind;
      [split; [apply List.NoDup_nil | reflexivity]|].
    rewrite serialize_controls_snoc. now apply serialize_input_shape. }
  assert (Hkeys : forall k, In k (keys (serialize_controls inputs)) <->
                            exists i, In i inputs /\ In k (keys_of i)).
  { clear Hshape. induction inputs as [|i ins IH] using rev_ind.
    - intros k. cbn. split; [tauto | now intros (i & [] & _)].
    - intros k. rewrite serialize_controls_snoc, serialize_input_In, IH.
      split.
      + intros [(j & Hj & Hk)|Hk].
        * exists j. split; [apply in_or_app; now left | exact Hk].
        * exists i. split; [apply in_or_app; right; now left | exact Hk].
      + intros (j & Hj & Hk). apply in_app_or in Hj as [Hj|[<-|[]]].
        * left. now exists j.
        * now right. }
  destruct Hshape as [Hn Hs]. repeat split; try assumption; try apply Hkeys.
  intros i Hi Hr. apply Hkeys. exists i. split; [exact Hi|].
  unfold keys_of. rewrite Hr. now left.
Qed.

Lemma serialize_controls_wellformed_witness :
  List.NoDup (keys (serialize_controls Ex.some_controls))
  /\ In "size" (keys (serialize_controls Ex.some_controls)).
Proof.
  destruct (serialize_controls_wellformed Ex.some_controls eq_refl)
    as (Hn & _ & _ & Hr).
  split; [exact Hn|].
  apply (Hr (Ex.radio "size" "S" false)); [cbn; tauto | reflexivity].
Defined.

(** ** The banner of the default alert *)

Lemma showAlertUnexpected_banner u x :
  exists body rest,
    trace (showAlertUnexpected u x) =
      EvShowAlert (ui_contextStatus u) (ui_id u) body "danger" :: rest
    /\ (rest = [] \/ exists s t b, rest = [EvAppendReport (ui_id u) s t b]).
Proof.
  unfold showAlertUnexpected.
  destruct (r_status x), (r_statusText x), (r_responseText x);
    eexists; eexists; (split; [reflexivity|]); eauto.
Qed.

(** X18. The default alert of a failed request (whose status text is
    not the name of an inherited member) opens with one banner of type
    [danger] in the status context, followed by at most the detail report
    of the generic alert, except at two kinds of failure where it throws
    before showing anything: a parsed body with a message whose [errors]
    hold a [null], and status 419 with no parsed object and no body
    text. *)
Theorem displayAlert_banner (q : queryUi) (x : response) (u : ui) :
  q_response q = Some x -> q_ui q = Some u ->
  inherited_key (statusText_key x) = false ->
  if shows_nothing x then displayAlert q = ([], Throw TypeError)
  else exists body rest,
         trace (displayAlert q) =
           EvShowAlert (ui_contextStatus u) (ui_id u) body "danger" :: rest
         /\ (rest = [] \/ exists s t b, rest = [EvAppendReport (ui_id u) s t b]).
Proof.
  intros Hx Hu _. unfold shows_nothing.
  destruct (is_object (r_data x)) eqn:Hd.
  - destruct (truthy (prop "message" (r_data x))) eqn:Hm; cbn [andb].
    + rewrite (displayAlert_extended q x u Hx Hu Hd Hm).
      pose proof (showAlertExtended_outcome u (r_data x)) as Ho. cbv zeta in Ho.
      assert (Hn : nullish (r_data x) = false)
        by (destruct (r_data x); try reflexivity; discriminate Hm).
      rewrite Hn in Ho. cbn [orb] in Ho.
      destruct (_ && _); [exact Ho|].
      destruct Ho as (html & ->). eexists. exists []. split; [reflexivity | now left].
    + rewrite (displayAlert_unexpected q x u Hx Hu) by (left; now split).
      apply showAlertUnexpected_banner.
  - destruct (r_status x) as [status|] eqn:Hs.
    + destruct (Z.eqb_spec status 419) as [->|Hne].
      * destruct (r_responseText x) as [text|] eqn:Ht.
        -- destruct (Z.ltb_spec 0 (Str.indexOf "Page Expired" text)) as [Hi|Hi].
           ++ rewrite (displayAlert_page_expired q x u Hx Hu text Hd Hs Ht Hi).
              rewrite showAlertPageExpired_run. eexists. exists [].
              split; [reflexivity | now left].
           ++ rewrite (displayAlert_unexpected q x u Hx Hu)
                by (right; right; split; [exact Hd | now exists text]).
              apply showAlertUnexpected_banner.
        -- exact (displayAlert_no_text q x u Hx Hu Hd Hs Ht).
      * assert (Hc : match r_responseText x with
                     | Some _ => false
                     | None => false
                     end = false) by now destruct (r_responseText x).
        rewrite Hc.
        rewrite (displayAlert_unexpected q x u Hx Hu)
          by (right; left; split; [exact Hd | congruence]).
        apply showAlertUnexpected_banner.
    + rewrite (displayAlert_unexpected q x u Hx Hu)
        by (right; left; split; [exact Hd | congruence]).
      apply showAlertUnexpected_banner.
Qed.

Lemma displayAlert_banner_witness :
  exists body rest,
    trace (displayAlert (Ex.failed Ex.expired_page)) =
      EvShowAlert Ex.body "r1" body "danger" :: rest
    /\ (rest = [] \/ exists s t b, rest = [EvAppendReport "r1" s t b]).
Proof.
  exact (displayAlert_banner (Ex.failed Ex.expired_page) Ex.expired_page
           Ex.notifier eq_refl eq_refl eq_refl).
Defined.

(** ** What [request] leaves as the caller gave it *)





(** ** FormData payloads *)




